(** * Queue store, fingerprinting, verifier, worker and adaptive scheduler
      of the realtor.ca scraper, as a shallow embedding.

    The Redis server is modelled by the record [RedisQueue]: one component per
    key (or per key family) that [src/redis-queue.ts] touches.  Every method
    of the TypeScript class becomes a function that takes the store (and the
    wall-clock reading [now] where the source calls [Date.now()]) and returns
    its result together with the new store.

    Modelling conventions.
    - Redis lists are Rocq lists whose head is the LEFT end: [LPUSH] conses,
      [BRPOP] removes the last element.
    - Redis sets are [gset string]; Redis hashes are [gmap string _].
    - JavaScript strings are Rocq strings, one character per UTF-16 code
      unit, so the model covers code units below 256.
    - JavaScript numbers that the code only stores, prints or compares as
      integers (timestamps, retry counts, prices) are [Z]. *)

From stdpp Require Import gmap strings list fin_maps sorting pretty.
From Stdlib Require Import ZArith QArith Ascii OrderedTypeEx.

Local Open Scope Z_scope.

(** ** JavaScript values of a raw listing *)

Module Js.

Inductive JsVal : Type :=
| JsUndefined
| JsNull
| JsBool (b : bool)
| JsNum (z : Z)
| JsStr (s : string).

(** ToBoolean. *)
Definition truthy (v : JsVal) : bool :=
  match v with
  | JsUndefined | JsNull => false
  | JsBool b => b
  | JsNum z => negb (z =? 0)
  | JsStr s => negb (String.eqb s EmptyString)
  end.

(** [a || b]. *)
Definition or (a b : JsVal) : JsVal := if truthy a then a else b.

(** [a || b] where [a] is an array or undefined: an array is always truthy. *)
Definition or_arr (a : option (list string)) (b : list string) : list string :=
  match a with Some l => l | None => b end.

Definition or_arrs (a b : option (list string)) : option (list string) :=
  match a with Some l => Some l | None => b end.

(** [String(v)], the conversion ioredis applies to hash field values. *)
Definition to_string (v : JsVal) : string :=
  match v with
  | JsUndefined => "undefined"
  | JsNull => "null"
  | JsBool true => "true"
  | JsBool false => "false"
  | JsNum z => pretty z
  | JsStr s => s
  end.

(** [Array.prototype.join(sep)] on an array of strings. *)
Fixpoint join (sep : string) (l : list string) : string :=
  match l with
  | [] => EmptyString
  | [x] => x
  | x :: rest => x +:+ sep +:+ join sep rest
  end.

(** [Array.prototype.sort()] with the default comparator orders strings by
    their code units; for a total order the sorted permutation is unique, so
    any sorting algorithm gives the engine's result. *)
Definition str_le (a b : string) : Prop := String.leb a b = true.

#[global] Instance str_le_dec a b : Decision (str_le a b) :=
  decide (String.leb a b = true).

Definition sort (l : list string) : list string := merge_sort str_le l.

End Js.

(** ** The Redis store *)

Record Snapshot : Type := mkSnapshot {
  checksum : string;
  snap_price : string;
  snap_status : string;
  updated_at : Z
}.

Record RedisQueue : Type := mkRedisQueue {
  queue : list string;                  (* landomo:realtor:queue *)
  all_ids : gset string;                (* :all_ids *)
  processed : gset string;              (* :processed *)
  failed : gset string;                 (* :failed *)
  failed_errors : gmap string string;   (* :failed:errors *)
  retries : gmap string Z;              (* :retries *)
  started_at : option Z;                (* :stats, field started_at *)
  last_seen : gmap string Z;            (* :last_seen:<id> *)
  missing_queue : list string;          (* :missing_queue *)
  verified_inactive : gset string;      (* :verified_inactive *)
  snapshots : gmap string Snapshot      (* :snapshot:<id> *)
}.

Definition empty_store : RedisQueue :=
  {| queue := []; all_ids := ∅; processed := ∅; failed := ∅;
     failed_errors := ∅; retries := ∅; started_at := None; last_seen := ∅;
     missing_queue := []; verified_inactive := ∅; snapshots := ∅ |}.

(** Field updates, one per key. *)
Definition set_queue (q : list string) (st : RedisQueue) : RedisQueue :=
  {| queue := q; all_ids := all_ids st; processed := processed st;
     failed := failed st; failed_errors := failed_errors st;
     retries := retries st; started_at := started_at st;
     last_seen := last_seen st; missing_queue := missing_queue st;
     verified_inactive := verified_inactive st; snapshots := snapshots st |}.

Definition set_all_ids (s : gset string) (st : RedisQueue) : RedisQueue :=
  {| queue := queue st; all_ids := s; processed := processed st;
     failed := failed st; failed_errors := failed_errors st;
     retries := retries st; started_at := started_at st;
     last_seen := last_seen st; missing_queue := missing_queue st;
     verified_inactive := verified_inactive st; snapshots := snapshots st |}.

Definition set_processed (s : gset string) (st : RedisQueue) : RedisQueue :=
  {| queue := queue st; all_ids := all_ids st; processed := s;
     failed := failed st; failed_errors := failed_errors st;
     retries := retries st; started_at := started_at st;
     last_seen := last_seen st; missing_queue := missing_queue st;
     verified_inactive := verified_inactive st; snapshots := snapshots st |}.

Definition set_failed (s : gset string) (st : RedisQueue) : RedisQueue :=
  {| queue := queue st; all_ids := all_ids st; processed := processed st;
     failed := s; failed_errors := failed_errors st;
     retries := retries st; started_at := started_at st;
     last_seen := last_seen st; missing_queue := missing_queue st;
     verified_inactive := verified_inactive st; snapshots := snapshots st |}.

Definition set_failed_errors (m : gmap string string) (st : RedisQueue) : RedisQueue :=
  {| queue := queue st; all_ids := all_ids st; processed := processed st;
     failed := failed st; failed_errors := m;
     retries := retries st; started_at := started_at st;
     last_seen := last_seen st; missing_queue := missing_queue st;
     verified_inactive := verified_inactive st; snapshots := snapshots st |}.

Definition set_retries (m : gmap string Z) (st : RedisQueue) : RedisQueue :=
  {| queue := queue st; all_ids := all_ids st; processed := processed st;
     failed := failed st; failed_errors := failed_errors st;
     retries := m; started_at := started_at st;
     last_seen := last_seen st; missing_queue := missing_queue st;
     verified_inactive := verified_inactive st; snapshots := snapshots st |}.

Definition set_started_at (t : option Z) (st : RedisQueue) : RedisQueue :=
  {| queue := queue st; all_ids := all_ids st; processed := processed st;
     failed := failed st; failed_errors := failed_errors st;
     retries := retries st; started_at := t;
     last_seen := last_seen st; missing_queue := missing_queue st;
     verified_inactive := verified_inactive st; snapshots := snapshots st |}.

Definition set_last_seen (m : gmap string Z) (st : RedisQueue) : RedisQueue :=
  {| queue := queue st; all_ids := all_ids st; processed := processed st;
     failed := failed st; failed_errors := failed_errors st;
     retries := retries st; started_at := started_at st;
     last_seen := m; missing_queue := missing_queue st;
     verified_inactive := verified_inactive st; snapshots := snapshots st |}.

Definition set_missing_queue (q : list string) (st : RedisQueue) : RedisQueue :=
  {| queue := queue st; all_ids := all_ids st; processed := processed st;
     failed := failed st; failed_errors := failed_errors st;
     retries := retries st; started_at := started_at st;
     last_seen := last_seen st; missing_queue := q;
     verified_inactive := verified_inactive st; snapshots := snapshots st |}.

Definition set_verified_inactive (s : gset string) (st : RedisQueue) : RedisQueue :=
  {| queue := queue st; all_ids := all_ids st; processed := processed st;
     failed := failed st; failed_errors := failed_errors st;
     retries := retries st; started_at := started_at st;
     last_seen := last_seen st; missing_queue := missing_queue st;
     verified_inactive := s; snapshots := snapshots st |}.

Definition set_snapshots (m : gmap string Snapshot) (st : RedisQueue) : RedisQueue :=
  {| queue := queue st; all_ids := all_ids st; processed := processed st;
     failed := failed st; failed_errors := failed_errors st;
     retries := retries st; started_at := started_at st;
     last_seen := last_seen st; missing_queue := missing_queue st;
     verified_inactive := verified_inactive st; snapshots := m |}.

(** ** Queue operations ([src/redis-queue.ts]) *)

(** [initialize]: set the start time once. *)
Definition initialize (now : Z) (st : RedisQueue) : RedisQueue :=
  match started_at st with
  | Some _ => st
  | None => set_started_at (Some now) st
  end.

(** [pushListingId]: SISMEMBER, then LPUSH and SADD in one pipeline. *)
Definition pushListingId (id : string) (st : RedisQueue) : bool * RedisQueue :=
  if decide (id ∈ all_ids st) then (false, st)
  else (true, set_all_ids ({[id]} ∪ all_ids st) (set_queue (id :: queue st) st)).

(** One pipeline of [pushListingIds]: for every id of the batch, SADD (whose
    reply says whether the id was new) and SET of the last-seen key.  Returns
    the ids whose SADD replied 1, in batch order. *)
Fixpoint pushBatchPipeline (now : Z) (batch : list string) (st : RedisQueue)
  : list string * RedisQueue :=
  match batch with
  | [] => ([], st)
  | id :: rest =>
      let isNew := bool_decide (id ∉ all_ids st) in
      let st1 := set_last_seen (<[id := now]> (last_seen st))
                   (set_all_ids ({[id]} ∪ all_ids st) st) in
      let '(newIds, st2) := pushBatchPipeline now rest st1 in
      (if isNew then id :: newIds else newIds, st2)
  end.

(** [LPUSH key v1 ... vn] pushes the values one after the other. *)
Definition lpush_all (vals : list string) (l : list string) : list string :=
  rev vals ++ l.

Definition pushBatch (now : Z) (batch : list string) (acc : nat * RedisQueue)
  : nat * RedisQueue :=
  let '(addedCount, st) := acc in
  let '(newIds, st1) := pushBatchPipeline now batch st in
  match newIds with
  | [] => (addedCount, st1)
  | _ => ((addedCount + length newIds)%nat,
          set_queue (lpush_all newIds (queue st1)) st1)
  end.

(** [ids.slice(i, i + batchSize)] for [i = 0, batchSize, ...]. *)
Fixpoint batches (fuel : nat) (batchSize : nat) (ids : list string)
  : list (list string) :=
  match fuel with
  | O => []
  | S fuel' =>
      match ids with
      | [] => []
      | _ => take batchSize ids :: batches fuel' batchSize (drop batchSize ids)
      end
  end.

Definition pushListingIds (now : Z) (ids : list string) (st : RedisQueue)
  : nat * RedisQueue :=
  fold_left (fun acc batch => pushBatch now batch acc)
            (batches (length ids) 1000 ids) (0%nat, st).

(** [popListingId]: BRPOP; [None] on timeout, which for a store nobody else
    writes to means the list is empty. *)
Definition brpop (l : list string) : option (string * list string) :=
  match rev l with
  | [] => None
  | x :: r => Some (x, rev r)
  end.

Definition popListingId (st : RedisQueue) : option string * RedisQueue :=
  match brpop (queue st) with
  | None => (None, st)
  | Some (x, q) => (Some x, set_queue q st)
  end.

Definition isProcessed (id : string) (st : RedisQueue) : bool :=
  bool_decide (id ∈ processed st).

Definition markProcessed (id : string) (st : RedisQueue) : RedisQueue :=
  set_processed ({[id]} ∪ processed st) st.

(** [markFailed(id, error?)]: the HSET happens when [error] is truthy. *)
Definition markFailed (id : string) (error : option string) (st : RedisQueue)
  : RedisQueue :=
  let st1 := set_failed ({[id]} ∪ failed st) st in
  match error with
  | Some e =>
      if String.eqb e EmptyString then st1
      else set_failed_errors (<[id := e]> (failed_errors st1)) st1
  | None => st1
  end.

(** [incrementRetry]: HINCRBY by 1; a missing field counts as 0. *)
Definition incrementRetry (id : string) (st : RedisQueue) : Z * RedisQueue :=
  let n := default 0 (retries st !! id) + 1 in
  (n, set_retries (<[id := n]> (retries st)) st).

Definition getRetryCount (id : string) (st : RedisQueue) : Z :=
  default 0 (retries st !! id).

Definition maxRetriesMessage (maxRetries : Z) : string :=
  "Max retries (" +:+ pretty maxRetries +:+ ") exceeded".

Definition requeueWithRetry (id : string) (maxRetries : Z) (st : RedisQueue)
  : bool * RedisQueue :=
  let '(n, st1) := incrementRetry id st in
  if n <=? maxRetries then (true, set_queue (id :: queue st1) st1)
  else (false, markFailed id (Some (maxRetriesMessage maxRetries)) st1).

(** [retryFailedListings]: SMEMBERS, then per id SREM, LPUSH, HDEL. *)
Definition retryFailedStep (st : RedisQueue) (id : string) : RedisQueue :=
  set_retries (delete id (retries st))
    (set_queue (id :: queue st)
       (set_failed (failed st ∖ {[id]}) st)).

Definition retryFailedListings (st : RedisQueue) : nat * RedisQueue :=
  let failedIds := elements (failed st) in
  (length failedIds, fold_left retryFailedStep failedIds st).

(** [clear]: DEL of the six keys named in the source. *)
Definition clear (st : RedisQueue) : RedisQueue :=
  {| queue := []; all_ids := ∅; processed := ∅; failed := ∅;
     failed_errors := failed_errors st; retries := ∅; started_at := None;
     last_seen := last_seen st; missing_queue := missing_queue st;
     verified_inactive := verified_inactive st; snapshots := snapshots st |}.

(** [updateLastSeen] / [getLastSeen]. *)
Definition updateLastSeen (now : Z) (id : string) (st : RedisQueue) : RedisQueue :=
  set_last_seen (<[id := now]> (last_seen st)) st.

Definition getLastSeen (id : string) (st : RedisQueue) : option Z :=
  last_seen st !! id.

(** [findMissingProperties]: SMEMBERS, then one GET per id.  A stored
    timestamp of 0 is falsy in [!lastSeen], like a missing key. *)
Definition cutoffTime (now hoursThreshold : Z) : Z :=
  now - hoursThreshold * 60 * 60 * 1000.

Definition notSeenRecently (cutoff : Z) (lastSeen : option Z) : bool :=
  match lastSeen with
  | None => true
  | Some t => (t =? 0) || (t <? cutoff)
  end.

Definition findMissingProperties (now hoursThreshold : Z) (st : RedisQueue)
  : list string :=
  filter (fun id => notSeenRecently (cutoffTime now hoursThreshold)
                      (getLastSeen id st) = true)
         (elements (all_ids st)).

(** [pushToMissingQueue]: per id, SISMEMBER on the verified-inactive set,
    then LPUSH and count. *)
Definition pushToMissingStep (acc : nat * RedisQueue) (id : string)
  : nat * RedisQueue :=
  let '(newCount, st) := acc in
  if decide (id ∈ verified_inactive st) then (newCount, st)
  else (S newCount, set_missing_queue (id :: missing_queue st) st).

Definition pushToMissingQueue (ids : list string) (st : RedisQueue)
  : nat * RedisQueue :=
  match ids with
  | [] => (0%nat, st)
  | _ => fold_left pushToMissingStep ids (0%nat, st)
  end.

Definition popFromMissingQueue (st : RedisQueue) : option string * RedisQueue :=
  match brpop (missing_queue st) with
  | None => (None, st)
  | Some (x, q) => (Some x, set_missing_queue q st)
  end.

(** [markVerifiedInactive]: SADD to verified_inactive, SREM from processed. *)
Definition markVerifiedInactive (id : string) (st : RedisQueue) : RedisQueue :=
  set_processed (processed st ∖ {[id]})
    (set_verified_inactive ({[id]} ∪ verified_inactive st) st).

Definition isVerifiedInactive (id : string) (st : RedisQueue) : bool :=
  bool_decide (id ∈ verified_inactive st).

Definition getVerifiedInactiveCount (st : RedisQueue) : nat :=
  size (verified_inactive st).

Definition getMissingQueueDepth (st : RedisQueue) : nat :=
  length (missing_queue st).

(** [identifyMissingProperties] of [src/coordinator.ts]. *)
Definition identifyMissingProperties (now hoursThreshold : Z) (st : RedisQueue)
  : RedisQueue :=
  match findMissingProperties now hoursThreshold st with
  | [] => st
  | missingIds => (pushToMissingQueue missingIds st).2
  end.

(** ** Change detection: canonical record, JSON text, 32-bit hash *)

(** The fields of a raw listing that the code reads. *)
Record Property : Type := mkProperty {
  prop_id : Js.JsVal;
  MlsNumber : Js.JsVal;
  rent : Js.JsVal;
  salePrice : Js.JsVal;
  price : Js.JsVal;
  description : Js.JsVal;
  visitStatus : Js.JsVal;
  status : Js.JsVal;
  imageList : option (list string);
  images : option (list string);
  amenities : option (list string);
  installations : option (list string);
  bedrooms : Js.JsVal;
  bathrooms : Js.JsVal;
  area : Js.JsVal;
  address : Js.JsVal;
  city : Js.JsVal
}.

Definition dquote : string := String (ascii_of_nat 34) EmptyString.
Definition backslash : string := String (ascii_of_nat 92) EmptyString.

Definition hexDigit (n : N) : ascii :=
  match n with
  | 0%N => "0" | 1%N => "1" | 2%N => "2" | 3%N => "3" | 4%N => "4"
  | 5%N => "5" | 6%N => "6" | 7%N => "7" | 8%N => "8" | 9%N => "9"
  | 10%N => "a" | 11%N => "b" | 12%N => "c" | 13%N => "d" | 14%N => "e"
  | _ => "f"
  end%char.

(** QuoteJSONString, one code unit. *)
Definition quoteJSONChar (c : ascii) : string :=
  let n := N_of_ascii c in
  if (n =? 8)%N then backslash +:+ "b"
  else if (n =? 9)%N then backslash +:+ "t"
  else if (n =? 10)%N then backslash +:+ "n"
  else if (n =? 12)%N then backslash +:+ "f"
  else if (n =? 13)%N then backslash +:+ "r"
  else if (n =? 34)%N then backslash +:+ dquote
  else if (n =? 92)%N then backslash +:+ backslash
  else if (n <? 32)%N then
    backslash +:+ "u00" +:+
      String (hexDigit (n / 16)) (String (hexDigit (n mod 16)) EmptyString)
  else String c EmptyString.

Fixpoint quoteJSONBody (s : string) : string :=
  match s with
  | EmptyString => EmptyString
  | String c rest => quoteJSONChar c +:+ quoteJSONBody rest
  end.

Definition quoteJSONString (s : string) : string :=
  dquote +:+ quoteJSONBody s +:+ dquote.

(** [JSON.stringify] of a primitive; [None] for undefined, whose property
    is left out of the enclosing object. *)
Definition stringifyVal (v : Js.JsVal) : option string :=
  match v with
  | Js.JsUndefined => None
  | Js.JsNull => Some "null"
  | Js.JsBool true => Some "true"
  | Js.JsBool false => Some "false"
  | Js.JsNum z => Some (pretty z)
  | Js.JsStr s => Some (quoteJSONString s)
  end.

Definition stringifyProp (kv : string * Js.JsVal) : option string :=
  match stringifyVal kv.2 with
  | Some t => Some (quoteJSONString kv.1 +:+ ":" +:+ t)
  | None => None
  end.

(** [JSON.stringify] of an object whose properties are primitives. *)
Definition stringifyObject (props : list (string * Js.JsVal)) : string :=
  "{" +:+ Js.join "," (omap stringifyProp props) +:+ "}".

(** The [importantData] object literal. *)
Definition importantData (p : Property) : list (string * Js.JsVal) :=
  [ ("price", Js.or (Js.or (Js.or (rent p) (salePrice p)) (price p)) (Js.JsNum 0));
    ("description", Js.or (description p) (Js.JsStr EmptyString));
    ("status", Js.or (Js.or (visitStatus p) (status p)) (Js.JsStr "unknown"));
    ("images", Js.JsStr (Js.join "|"
                 (Js.or_arr (Js.or_arrs (imageList p) (images p)) [])));
    ("amenities", Js.JsStr (Js.join "|" (Js.sort (Js.or_arr (amenities p) []))));
    ("features", Js.JsStr (Js.join "|" (Js.sort (Js.or_arr (installations p) []))));
    ("bedrooms", Js.or (bedrooms p) (Js.JsNum 0));
    ("bathrooms", Js.or (bathrooms p) (Js.JsNum 0));
    ("area", Js.or (area p) (Js.JsNum 0));
    ("address", Js.or (address p) (Js.JsStr EmptyString));
    ("city", Js.or (city p) (Js.JsStr EmptyString)) ].

(** [Array.prototype.sort] works in place: evaluating the object literal
    leaves the caller's arrays sorted. *)
Definition sortedInPlace (p : Property) : Property :=
  {| prop_id := prop_id p; MlsNumber := MlsNumber p;
     rent := rent p; salePrice := salePrice p; price := price p;
     description := description p; visitStatus := visitStatus p;
     status := status p; imageList := imageList p; images := images p;
     amenities := Js.sort <$> amenities p;
     installations := Js.sort <$> installations p;
     bedrooms := bedrooms p; bathrooms := bathrooms p; area := area p;
     address := address p; city := city p |}.

(** [hashString]: [hash << 5] and [hash & hash] truncate to a signed
    32-bit integer. *)
Definition toInt32 (z : Z) : Z := (z + 2 ^ 31) mod 2 ^ 32 - 2 ^ 31.

Definition hashStep (hash : Z) (c : ascii) : Z :=
  toInt32 (toInt32 (hash * 2 ^ 5) - hash + Z.of_N (N_of_ascii c)).

Fixpoint hashLoop (str : string) (hash : Z) : Z :=
  match str with
  | EmptyString => hash
  | String c rest => hashLoop rest (hashStep hash c)
  end.

Definition hashString (str : string) : string := pretty (hashLoop str 0).

Definition dataString (p : Property) : string :=
  stringifyObject (importantData p).

(** [calculatePropertyChecksum]: the checksum, and the argument as the call
    leaves it. *)
Definition calculatePropertyChecksum (p : Property) : string * Property :=
  (hashString (dataString p), sortedInPlace p).

(** [storePropertySnapshot]: HSET of the four fields. *)
Definition storePropertySnapshot (now : Z) (id : string) (p : Property)
    (st : RedisQueue) : RedisQueue * Property :=
  let '(sum, p1) := calculatePropertyChecksum p in
  let snapshot :=
    {| checksum := sum;
       snap_price := Js.to_string
         (Js.or (Js.or (Js.or (rent p1) (salePrice p1)) (price p1)) (Js.JsNum 0));
       snap_status := Js.to_string
         (Js.or (Js.or (visitStatus p1) (status p1)) (Js.JsStr "unknown"));
       updated_at := now |} in
  (set_snapshots (<[id := snapshot]> (snapshots st)) st, p1).

(** [getPropertySnapshot]: HGETALL; an absent key reads as an empty hash. *)
Definition getPropertySnapshot (id : string) (st : RedisQueue) : option Snapshot :=
  snapshots st !! id.

Definition hasPropertyChanged (id : string) (currentProperty : Property)
    (st : RedisQueue) : bool * Property :=
  match getPropertySnapshot id st with
  | None => (true, currentProperty)
  | Some snapshot =>
      let '(currentChecksum, p1) := calculatePropertyChecksum currentProperty in
      (negb (String.eqb (checksum snapshot) currentChecksum), p1)
  end.

(** ** Exceptions *)

Inductive Outcome (A : Type) : Type :=
| Returned (a : A)
| Threw.
Arguments Returned {A} a.
Arguments Threw {A}.

(** ** Sink ([core] module): both entry points return at once without
    credentials; otherwise they make the POST and rethrow when it fails.
    The request has been made by then: the list of POSTs grows whether the
    sink accepts the request or answers with an error. *)

Record SinkConfig : Type := mkSinkConfig {
  apiKey : bool;        (* is config.apiKey truthy *)
  sinkAccepts : bool    (* does the POST to the sink succeed *)
}.

Record InactiveMark : Type := mkInactiveMark {
  im_portal_id : string;
  im_reason : string
}.

Definition markPropertyInactive (cfg : SinkConfig) (portalId reason : string)
    (posted : list InactiveMark) : Outcome unit * list InactiveMark :=
  if negb (apiKey cfg) then (Returned tt, posted)
  else
    let posted' := posted ++ [mkInactiveMark portalId reason] in
    if sinkAccepts cfg then (Returned tt, posted') else (Threw, posted').

(** ** Disappearance verifier ([src/worker-verifier.ts]) *)

(** What the body of a 2xx reply can be, as far as
    [response.data && response.data.Id] can tell. *)
Inductive ResponseData : Type :=
| DataFalsy                        (* empty body, null *)
| DataObject (Id : Js.JsVal)       (* a JSON object, with its Id property *)
| DataOther.                       (* truthy non-object: its .Id is undefined *)

(** What [axios.post] does: resolve on 2xx, reject otherwise. *)
Inductive FetchOutcome : Type :=
| Responded (data : ResponseData)
| HttpError (httpStatus : Z)       (* axios error carrying a response *)
| NoResponse                       (* timeout, connection reset *)
| OtherError.                      (* not an axios error *)

Definition dataHasId (d : ResponseData) : bool :=
  match d with
  | DataObject i => Js.truthy i
  | DataFalsy | DataOther => false
  end.

Definition verifyProperty (fetch : FetchOutcome) : Outcome bool :=
  match fetch with
  | Responded d => if dataHasId d then Returned true else Returned false
  | HttpError s => if s =? 404 then Returned false else Threw
  | NoResponse | OtherError => Threw
  end.

Record Verifier : Type := mkVerifier {
  v_queue : RedisQueue;
  v_posted : list InactiveMark;      (* POSTs made to the sink *)
  verifiedInactiveCount : nat;
  foundActiveCount : nat
}.

Definition processMissingProperty (cfg : SinkConfig) (now : Z)
    (fetch : FetchOutcome) (id : string) (v : Verifier) : bool * Verifier :=
  match verifyProperty fetch with
  | Threw => (false, v)
  | Returned true =>
      (true, {| v_queue := updateLastSeen now id (v_queue v);
                v_posted := v_posted v;
                verifiedInactiveCount := verifiedInactiveCount v;
                foundActiveCount := S (foundActiveCount v) |})
  | Returned false =>
      let '(answer, posted) :=
        if apiKey cfg
        then markPropertyInactive cfg id "not_found" (v_posted v)
        else (Returned tt, v_posted v) in
      match answer with
      | Threw =>
          (false, {| v_queue := v_queue v;
                     v_posted := posted;
                     verifiedInactiveCount := verifiedInactiveCount v;
                     foundActiveCount := foundActiveCount v |})
      | Returned _ =>
          (true, {| v_queue := markVerifiedInactive id (v_queue v);
                    v_posted := posted;
                    verifiedInactiveCount := S (verifiedInactiveCount v);
                    foundActiveCount := foundActiveCount v |})
      end
  end.

(** ** Adaptive scheduler ([updateAreaStats] of the database client) *)

(** A JavaScript number as far as [>] against a finite constant can tell. *)
Inductive JsNumber : Type :=
| NaN
| Infinity (negative : bool)
| Finite (q : Q).

Definition gt (x : JsNumber) (c : Q) : bool :=
  match x with
  | NaN => false
  | Infinity negative => negb negative
  | Finite q => negb (Qle_bool q c)
  end.

(** The doubles that the literals 0.20, 0.10, 0.05 and 0.02 denote. *)
Definition lit_0_20 : Q := 3602879701896397 # 18014398509481984.
Definition lit_0_10 : Q := 3602879701896397 # 36028797018963968.
Definition lit_0_05 : Q := 3602879701896397 # 72057594037927936.
Definition lit_0_02 : Q := 5764607523034235 # 288230376151711744.

Definition scrapeIntervalHours (changeRate : JsNumber) : Z :=
  if gt changeRate lit_0_20 then 2
  else if gt changeRate lit_0_10 then 4
  else if gt changeRate lit_0_05 then 6
  else if gt changeRate lit_0_02 then 12
  else 24.

Inductive AreaType : Type := City | Region | GridCell.

Record AreaStats : Type := mkAreaStats {
  changeRate : JsNumber;
  totalProperties : Z;
  activeProperties : Z;
  avgChangesPerScrape : JsNumber
}.

(** A row of [geographic_areas]; timestamps in milliseconds. *)
Record AreaRow : Type := mkAreaRow {
  area_type : AreaType;
  change_rate : JsNumber;
  scrape_interval_hours : Z;
  last_scraped : option Z;
  next_scrape : option Z;
  total_properties : Z;
  active_properties : Z;
  avg_changes_per_scrape : JsNumber;
  created_at : Z;
  row_updated_at : Z
}.

Definition hoursMs (h : Z) : Z := h * 3600000.

(** The seven values are sent without types, so the server deduces the type
    of each parameter from the places where the statement uses it: a bare
    parameter in the VALUES list takes the type of its column, an operand
    of [||] beside a string literal is text.  A parameter for which two
    places ask different types is refused (SQLSTATE 42P08, inconsistent
    types deduced for parameter) and the statement is not run. *)
Inductive SqlType : Type := SqlText | SqlNumeric | SqlInteger.

#[global] Instance SqlType_eq_dec : EqDecision SqlType.
Proof. solve_decision. Defined.

(** Where the INSERT of [updateAreaStats] uses its parameters, in the order
    of the statement's text, with the column types of the schema. *)
Definition updateAreaStats_params : list (nat * SqlType) :=
  [ (1%nat, SqlText)       (* area_name TEXT *)
  ; (2%nat, SqlText)       (* area_type TEXT *)
  ; (3%nat, SqlNumeric)    (* change_rate NUMERIC *)
  ; (4%nat, SqlInteger)    (* scrape_interval_hours INTEGER *)
  ; (4%nat, SqlText)       (* NOW() + ($4 || ' hours')::INTERVAL *)
  ; (5%nat, SqlInteger)    (* total_properties INTEGER *)
  ; (6%nat, SqlInteger)    (* active_properties INTEGER *)
  ; (7%nat, SqlNumeric)    (* avg_changes_per_scrape NUMERIC *) ].

Fixpoint deduceParamTypes (uses : list (nat * SqlType))
    (types : gmap nat SqlType) : option (gmap nat SqlType) :=
  match uses with
  | [] => Some types
  | (n, t) :: rest =>
      match types !! n with
      | None => deduceParamTypes rest (<[n := t]> types)
      | Some t' =>
          if decide (t' = t) then deduceParamTypes rest types else None
      end
  end.

(** INSERT ... ON CONFLICT (area_name) DO UPDATE, once the statement is
    accepted: a conflicting row keeps its area_type and created_at. *)
Definition upsertArea (now : Z) (areaName : string) (areaType : AreaType)
    (stats : AreaStats) (hours : Z) (db : gmap string AreaRow)
    : gmap string AreaRow :=
  let excluded :=
    {| area_type := areaType;
       change_rate := changeRate stats;
       scrape_interval_hours := hours;
       last_scraped := Some now;
       next_scrape := Some (now + hoursMs hours);
       total_properties := totalProperties stats;
       active_properties := activeProperties stats;
       avg_changes_per_scrape := avgChangesPerScrape stats;
       created_at := now;
       row_updated_at := now |} in
  match db !! areaName with
  | None => <[areaName := excluded]> db
  | Some old =>
      <[areaName :=
          {| area_type := area_type old;
             change_rate := change_rate excluded;
             scrape_interval_hours := scrape_interval_hours excluded;
             last_scraped := last_scraped excluded;
             next_scrape := next_scrape excluded;
             total_properties := total_properties excluded;
             active_properties := active_properties excluded;
             avg_changes_per_scrape := avg_changes_per_scrape excluded;
             created_at := created_at old;
             row_updated_at := now |}]> db
  end.

(** [updateAreaStats]: chooses the interval, then sends the statement.  When
    the server refuses the statement the promise rejects and the table is as
    it was. *)
Definition updateAreaStats (now : Z) (areaName : string) (areaType : AreaType)
    (stats : AreaStats) (db : gmap string AreaRow)
    : Outcome unit * gmap string AreaRow :=
  let hours := scrapeIntervalHours (changeRate stats) in
  match deduceParamTypes updateAreaStats_params ∅ with
  | None => (Threw, db)
  | Some _ => (Returned tt, upsertArea now areaName areaType stats hours db)
  end.

(** ** Inspection worker *)

Section Worker.

(** The normalizer ([transformToStandard]) is a pure function of the raw
    listing; the worker only passes its result on. *)
Context {StandardProperty : Type}.
Variable transformToStandard : Property -> StandardProperty.

Record IngestionPayload : Type := mkIngestionPayload {
  portal_id : string;
  data : StandardProperty;
  raw_data : Property
}.

Definition sendToCoreService (cfg : SinkConfig) (payload : IngestionPayload)
    (sent : list IngestionPayload) : Outcome unit * list IngestionPayload :=
  if negb (apiKey cfg) then (Returned tt, sent)
  else
    let sent' := sent ++ [payload] in
    if sinkAccepts cfg then (Returned tt, sent') else (Threw, sent').

Record Worker : Type := mkWorker {
  w_queue : RedisQueue;
  w_sent : list IngestionPayload;    (* payloads POSTed to the sink *)
  w_fetches : nat;                   (* calls of fetchPropertyDetail *)
  processedCount : nat;
  failedCount : nat;
  changedCount : nat;
  unchangedCount : nat
}.

(** [fetchPropertyDetail] as the worker has it: no request, a record with
    the two identifier fields. *)
Definition fetchPropertyDetail (mlsNumber : string) : Outcome (option Property) :=
  Returned (Some
    {| prop_id := Js.JsStr mlsNumber; MlsNumber := Js.JsStr mlsNumber;
       rent := Js.JsUndefined; salePrice := Js.JsUndefined;
       price := Js.JsUndefined; description := Js.JsUndefined;
       visitStatus := Js.JsUndefined; status := Js.JsUndefined;
       imageList := None; images := None; amenities := None;
       installations := None; bedrooms := Js.JsUndefined;
       bathrooms := Js.JsUndefined; area := Js.JsUndefined;
       address := Js.JsUndefined; city := Js.JsUndefined |}).

Definition with_queue (q : RedisQueue) (w : Worker) : Worker :=
  {| w_queue := q; w_sent := w_sent w; w_fetches := w_fetches w;
     processedCount := processedCount w; failedCount := failedCount w;
     changedCount := changedCount w; unchangedCount := unchangedCount w |}.

(** The catch block of [processListing]. *)
Definition processListingCatch (id : string) (w : Worker) : bool * Worker :=
  let '(requeued, q) := requeueWithRetry id 3 (w_queue w) in
  (false,
   {| w_queue := q; w_sent := w_sent w; w_fetches := w_fetches w;
      processedCount := processedCount w;
      failedCount := if requeued then failedCount w else S (failedCount w);
      changedCount := changedCount w; unchangedCount := unchangedCount w |}).

(** [processListing], for any detail fetcher. *)
Definition processListingWith (fetch : string -> Outcome (option Property))
    (cfg : SinkConfig) (now : Z) (id : string) (w : Worker) : bool * Worker :=
  if isProcessed id (w_queue w) then (true, w)
  else
    let w1 :=
      {| w_queue := w_queue w; w_sent := w_sent w;
         w_fetches := S (w_fetches w);
         processedCount := processedCount w; failedCount := failedCount w;
         changedCount := changedCount w; unchangedCount := unchangedCount w |} in
    match fetch id with
    | Threw => processListingCatch id w1
    | Returned None =>
        (false, with_queue (markFailed id (Some "Not found") (w_queue w1)) w1)
    | Returned (Some property) =>
        let '(hasChanged, property1) :=
          hasPropertyChanged id property (w_queue w1) in
        if negb hasChanged then
          (true,
           {| w_queue := markProcessed id (w_queue w1); w_sent := w_sent w1;
              w_fetches := w_fetches w1;
              processedCount := S (processedCount w1);
              failedCount := failedCount w1;
              changedCount := changedCount w1;
              unchangedCount := S (unchangedCount w1) |})
        else
          let payload :=
            {| portal_id := id; data := transformToStandard property1;
               raw_data := property1 |} in
          let '(answer, sent) :=
            if apiKey cfg then sendToCoreService cfg payload (w_sent w1)
            else (Returned tt, w_sent w1) in
          match answer with
          | Threw =>
              processListingCatch id
                {| w_queue := w_queue w1; w_sent := sent;
                   w_fetches := w_fetches w1;
                   processedCount := processedCount w1;
                   failedCount := failedCount w1;
                   changedCount := changedCount w1;
                   unchangedCount := unchangedCount w1 |}
          | Returned _ =>
              let '(q, _) := storePropertySnapshot now id property1 (w_queue w1) in
              (true,
               {| w_queue := markProcessed id q; w_sent := sent;
                  w_fetches := w_fetches w1;
                  processedCount := S (processedCount w1);
                  failedCount := failedCount w1;
                  changedCount := S (changedCount w1);
                  unchangedCount := unchangedCount w1 |})
          end
    end.

Definition processListing := processListingWith fetchPropertyDetail.

End Worker.

Arguments mkIngestionPayload {StandardProperty}.
Arguments mkWorker {StandardProperty}.

(** ** Sample listings *)

Definition sampleListing : Property :=
  {| prop_id := Js.JsStr "X1"; MlsNumber := Js.JsStr "X1";
     rent := Js.JsUndefined; salePrice := Js.JsNum 450000;
     price := Js.JsUndefined; description := Js.JsStr "Bright corner unit";
     visitStatus := Js.JsStr "Aa"; status := Js.JsUndefined;
     imageList := Some ["b.jpg"; "a.jpg"]; images := None;
     amenities := Some ["pool"; "gym"];
     installations := Some ["washer"; "dryer"];
     bedrooms := Js.JsNum 2; bathrooms := Js.JsNum 1; area := Js.JsNum 70;
     address := Js.JsStr "1 Main St"; city := Js.JsStr "Toronto" |}.

(** Single-field edits of a listing. *)
Definition with_salePrice (v : Js.JsVal) (p : Property) : Property :=
  {| prop_id := prop_id p; MlsNumber := MlsNumber p;
     rent := rent p; salePrice := v; price := price p;
     description := description p; visitStatus := visitStatus p;
     status := status p; imageList := imageList p; images := images p;
     amenities := amenities p; installations := installations p;
     bedrooms := bedrooms p; bathrooms := bathrooms p; area := area p;
     address := address p; city := city p |}.

Definition with_visitStatus (v : Js.JsVal) (p : Property) : Property :=
  {| prop_id := prop_id p; MlsNumber := MlsNumber p;
     rent := rent p; salePrice := salePrice p; price := price p;
     description := description p; visitStatus := v;
     status := status p; imageList := imageList p; images := images p;
     amenities := amenities p; installations := installations p;
     bedrooms := bedrooms p; bathrooms := bathrooms p; area := area p;
     address := address p; city := city p |}.

Definition with_imageList (l : option (list string)) (p : Property) : Property :=
  {| prop_id := prop_id p; MlsNumber := MlsNumber p;
     rent := rent p; salePrice := salePrice p; price := price p;
     description := description p; visitStatus := visitStatus p;
     status := status p; imageList := l; images := images p;
     amenities := amenities p; installations := installations p;
     bedrooms := bedrooms p; bathrooms := bathrooms p; area := area p;
     address := address p; city := city p |}.

Definition with_amenities (l : option (list string)) (p : Property) : Property :=
  {| prop_id := prop_id p; MlsNumber := MlsNumber p;
     rent := rent p; salePrice := salePrice p; price := price p;
     description := description p; visitStatus := visitStatus p;
     status := status p; imageList := imageList p; images := images p;
     amenities := l; installations := installations p;
     bedrooms := bedrooms p; bathrooms := bathrooms p; area := area p;
     address := address p; city := city p |}.

Definition with_installations (l : option (list string)) (p : Property) : Property :=
  {| prop_id := prop_id p; MlsNumber := MlsNumber p;
     rent := rent p; salePrice := salePrice p; price := price p;
     description := description p; visitStatus := visitStatus p;
     status := status p; imageList := imageList p; images := images p;
     amenities := amenities p; installations := l;
     bedrooms := bedrooms p; bathrooms := bathrooms p; area := area p;
     address := address p; city := city p |}.

(** [k] successive calls of [requeueWithRetry] for one identifier, with the
    results in call order. *)
Fixpoint requeueTimes (k : nat) (id : string) (maxRetries : Z) (st : RedisQueue)
  : list bool * RedisQueue :=
  match k with
  | O => ([], st)
  | S k' =>
      let '(results, st1) := requeueTimes k' id maxRetries st in
      let '(r, st2) := requeueWithRetry id maxRetries st1 in
      (results ++ [r], st2)
  end.

(** A fresh verifier on a given store. *)
Definition newVerifier (st : RedisQueue) : Verifier :=
  {| v_queue := st; v_posted := []; verifiedInactiveCount := 0;
     foundActiveCount := 0 |}.

(** The replies that [verifyProperty] turns into "does not exist": HTTP 404,
    and any 2xx reply whose body has no truthy Id. *)
Definition readAsNotFound (fetch : FetchOutcome) : bool :=
  match fetch with
  | HttpError s => s =? 404
  | Responded d => negb (dataHasId d)
  | NoResponse | OtherError => false
  end.

(** The fetch failures that [verifyProperty] rethrows. *)
Definition rethrown (fetch : FetchOutcome) : bool :=
  match fetch with
  | HttpError s => negb (s =? 404)
  | NoResponse | OtherError => true
  | Responded _ => false
  end.

(** One hour in milliseconds, and a store holding one identifier with a given
    last-seen timestamp. *)
Definition hourMs : Z := 60 * 60 * 1000.

Definition seenAt (id : string) (t : Z) : RedisQueue :=
  set_last_seen {[id := t]} (set_all_ids {[id]} empty_store).

(** A fresh worker on a given store, and a fetcher that answers with one
    fixed listing. *)
Definition newWorker {StandardProperty : Type} (st : RedisQueue)
  : Worker (StandardProperty := StandardProperty) :=
  {| w_queue := st; w_sent := []; w_fetches := 0; processedCount := 0;
     failedCount := 0; changedCount := 0; unchangedCount := 0 |}.

Definition fetchAlways (p : Property) (id : string) : Outcome (option Property) :=
  Returned (Some p).

(** ** Reading JSON text back

    The inverse of [quoteJSONChar] on the front of a text, used to show that
    the canonical text determines the canonical record. *)

Definition hexValue (c : ascii) : N :=
  let n := N_of_ascii c in
  if (n <? 58)%N then (n - 48)%N else (n - 87)%N.

Definition unquoteJSONHead (s : string) : option (ascii * string) :=
  match s with
  | EmptyString => None
  | String c rest =>
      if (N_of_ascii c =? 92)%N then
        match rest with
        | EmptyString => None
        | String e rest1 =>
            let k := N_of_ascii e in
            if (k =? 98)%N then Some (ascii_of_N 8, rest1)
            else if (k =? 116)%N then Some (ascii_of_N 9, rest1)
            else if (k =? 110)%N then Some (ascii_of_N 10, rest1)
            else if (k =? 102)%N then Some (ascii_of_N 12, rest1)
            else if (k =? 114)%N then Some (ascii_of_N 13, rest1)
            else if (k =? 34)%N then Some (ascii_of_N 34, rest1)
            else if (k =? 92)%N then Some (ascii_of_N 92, rest1)
            else
              match rest1 with
              | String _ (String _ (String h1 (String h2 rest2))) =>
                  Some (ascii_of_N (16 * hexValue h1 + hexValue h2), rest2)
              | _ => None
              end
        end
      else Some (c, rest)
  end.

Definition startsWith (code : N) (s : string) : bool :=
  match s with
  | EmptyString => false
  | String c _ => (N_of_ascii c =? code)%N
  end.

(** The characters of a printed integer. *)
Definition isNumChar (c : ascii) : bool :=
  let n := N_of_ascii c in
  (n =? 45)%N || ((48 <=? n)%N && (n <=? 57)%N).

Fixpoint allNumChars (s : string) : bool :=
  match s with
  | EmptyString => true
  | String c rest => isNumChar c && allNumChars rest
  end.

(** Does the text start with one of the two delimiters that can follow a
    property value, a comma or a closing brace. *)
Definition startsWithDelimiter (s : string) : bool :=
  startsWith 44 s || startsWith 125 s.

(** Does the text start like a printed integer that is followed by a
    delimiter: a sign, a digit, or (for no characters at all) the delimiter. *)
Definition startsNumeric (s : string) : bool :=
  match s with
  | EmptyString => false
  | String c _ => isNumChar c || startsWithDelimiter s
  end.

(** A property that [JSON.stringify] does not leave out. *)
Definition defined (kv : string * Js.JsVal) : Prop := kv.2 <> Js.JsUndefined.

(** * Further operations of the queue, the clients and the workers *)

(** ** Queue statistics ([getStats]) *)

Module Stats.

Record QueueStats : Type := mkQueueStats {
  queueDepth : nat;
  totalDiscovered : nat;
  processedCount : nat;
  failedCount : nat;
  remaining : nat;
  startedAt : option Z
}.

End Stats.

(** [getStats]: LLEN, three SCARDs and the HGET of the start time. *)
Definition getStats (st : RedisQueue) : Stats.QueueStats :=
  {| Stats.queueDepth := length (queue st);
     Stats.totalDiscovered := size (all_ids st);
     Stats.processedCount := size (processed st);
     Stats.failedCount := size (failed st);
     Stats.remaining := length (queue st);
     Stats.startedAt := started_at st |}.

(** [getFailedIds]: SMEMBERS of the failed set. *)
Definition getFailedIds (st : RedisQueue) : list string := elements (failed st).

(** [getChangeStats]: KEYS of the snapshot pattern; the second count is the
    constant 0 of the source. *)
Definition getChangeStats (st : RedisQueue) : nat * nat :=
  (size (snapshots st), 0%nat).

(** [n] successive calls of [popListingId], with the results in call order. *)
Fixpoint popTimes (n : nat) (st : RedisQueue) : list (option string) * RedisQueue :=
  match n with
  | O => ([], st)
  | S n' =>
      let '(r, st1) := popListingId st in
      let '(rs, st2) := popTimes n' st1 in
      (r :: rs, st2)
  end.

(** The identifiers of a list that a set has not seen, each at its first
    occurrence: what the SADD replies of one pipeline select. *)
Fixpoint newIdsOf (seen : gset string) (ids : list string) : list string :=
  match ids with
  | [] => []
  | id :: rest =>
      if decide (id ∈ seen) then newIdsOf seen rest
      else id :: newIdsOf ({[id]} ∪ seen) rest
  end.

(** SET of the last-seen key of every listed identifier. *)
Definition refreshLastSeen (now : Z) (ids : list string) (m : gmap string Z)
  : gmap string Z :=
  fold_left (fun m id => <[id := now]> m) ids m.

(** ** The hash without truncation

    The value [31 * ... (31 * (31 * acc + c1) + c2) ... + cn] that the loop of
    [hashString] computes modulo 2^32. *)
Fixpoint polyHash (str : string) (acc : Z) : Z :=
  match str with
  | EmptyString => acc
  | String c rest => polyHash rest (31 * acc + Z.of_N (N_of_ascii c))
  end.

(** ** The polling loops

    [!id] is true for a timed-out pop and also for a popped empty string. *)
Definition noId (id : option string) : bool :=
  match id with
  | None => true
  | Some s => String.eqb s EmptyString
  end.

Definition maxEmptyChecks : nat := 10.

Module MissingPropertyVerifier.

Definition with_queue (q : RedisQueue) (v : Verifier) : Verifier :=
  {| v_queue := q; v_posted := v_posted v;
     verifiedInactiveCount := verifiedInactiveCount v;
     foundActiveCount := foundActiveCount v |}.

(** [start], with the store written by this process only.  [nowAt k] is the
    clock and [fetchAt k] the portal's answer during iteration [k] of the
    loop; [None] when the fuel runs out before the loop ends. *)
Fixpoint loop (cfg : SinkConfig) (nowAt : nat -> Z)
    (fetchAt : nat -> string -> FetchOutcome)
    (fuel iteration emptyQueueCount : nat) (v : Verifier) : option Verifier :=
  match fuel with
  | O => None
  | S fuel' =>
      let '(id, q) := popFromMissingQueue (v_queue v) in
      let v1 := with_queue q v in
      if noId id then
        let emptyQueueCount' := S emptyQueueCount in
        if (maxEmptyChecks <=? emptyQueueCount')%nat then Some v1
        else loop cfg nowAt fetchAt fuel' (S iteration) emptyQueueCount' v1
      else
        let v2 := (processMissingProperty cfg (nowAt iteration)
                     (fetchAt iteration (default EmptyString id))
                     (default EmptyString id) v1).2 in
        loop cfg nowAt fetchAt fuel' (S iteration) 0 v2
  end.

Definition start (cfg : SinkConfig) (nowAt : nat -> Z)
    (fetchAt : nat -> string -> FetchOutcome) (fuel : nat) (v : Verifier)
  : option Verifier :=
  loop cfg nowAt fetchAt fuel 0 0 v.


End MissingPropertyVerifier.

Module RealtorWorker.

Section Loop.

Context {StandardProperty : Type}.
Variable transformToStandard : Property -> StandardProperty.
(** Per iteration of the loop: the sink's behaviour, the clock and the
    detail fetcher. *)
Variable cfgAt : nat -> SinkConfig.
Variable nowAt : nat -> Z.
Variable fetchAt : nat -> string -> Outcome (option Property).

(** [start], with the store written by this process only; [None] when the
    fuel runs out before the loop ends. *)
Fixpoint loop (fuel iteration emptyQueueCount : nat)
    (w : Worker (StandardProperty := StandardProperty))
  : option (Worker (StandardProperty := StandardProperty)) :=
  match fuel with
  | O => None
  | S fuel' =>
      let '(id, q) := popListingId (w_queue w) in
      let w1 := with_queue q w in
      if noId id then
        let emptyQueueCount' := S emptyQueueCount in
        if (maxEmptyChecks <=? emptyQueueCount')%nat then Some w1
        else loop fuel' (S iteration) emptyQueueCount' w1
      else
        let w2 := (processListingWith transformToStandard (fetchAt iteration)
                     (cfgAt iteration) (nowAt iteration)
                     (default EmptyString id) w1).2 in
        loop fuel' (S iteration) 0 w2
  end.

Definition start (fuel : nat) (w : Worker (StandardProperty := StandardProperty))
  : option (Worker (StandardProperty := StandardProperty)) :=
  loop fuel 0 0 w.

End Loop.

End RealtorWorker.

(** How many more times [requeueWithRetry id 3] can put an identifier back,
    and the number of polls the entries of a lane can still cost. *)
Definition retryBudget (st : RedisQueue) (id : string) : nat :=
  Z.to_nat (3 - getRetryCount id st).

Fixpoint laneCost (lane : list string) (st : RedisQueue) : nat :=
  match lane with
  | [] => 0
  | id :: rest => (S (retryBudget st id) + laneCost rest st)%nat
  end.

(** * Properties *)

(** ** The default sort is a function of the multiset *)

Lemma str_le_cases a b : Js.str_le a b <-> String_as_OT.lt a b \/ a = b.
Proof.
  unfold Js.str_le, String.leb.
  pose proof (String_as_OT.cmp_lt a b) as Hlt.
  pose proof (String_as_OT.cmp_eq a b) as Heq.
  unfold String_as_OT.cmp in *.
  destruct (String.compare a b); split; intros H; try done.
  - right. by apply Heq.
  - left. by apply Hlt.
  - destruct H as [H | H]; [by apply Hlt in H | by apply Heq in H].
Qed.

#[local] Instance str_le_trans : Transitive Js.str_le.
Proof.
  intros a b c Hab Hbc.
  apply str_le_cases in Hab. apply str_le_cases in Hbc. apply str_le_cases.
  destruct Hab as [Hab | ->]; destruct Hbc as [Hbc | ->]; eauto.
  left. by eapply String_as_OT.lt_trans.
Qed.

#[local] Instance str_le_total : Total Js.str_le.
Proof. intros a b. apply String.leb_total. Qed.

#[local] Instance str_le_antisym : AntiSymm eq Js.str_le.
Proof. intros a b. apply String.leb_antisym. Qed.

Lemma sort_sorted l : StronglySorted Js.str_le (Js.sort l).
Proof. apply (StronglySorted_merge_sort _). Qed.

Lemma sort_perm l : Js.sort l ≡ₚ l.
Proof. apply merge_sort_Permutation. Qed.

Lemma sort_of_perm l1 l2 : l1 ≡ₚ l2 -> Js.sort l1 = Js.sort l2.
Proof.
  intros Hp. apply (StronglySorted_unique Js.str_le); try apply sort_sorted.
  by rewrite !sort_perm.
Qed.

Lemma sort_idem l : Js.sort (Js.sort l) = Js.sort l.
Proof. apply sort_of_perm, sort_perm. Qed.

(** ** Single push: what holds *)

Lemma pushListingId_new id st :
  id ∉ all_ids st ->
  pushListingId id st =
    (true, set_all_ids ({[id]} ∪ all_ids st) (set_queue (id :: queue st) st)).
Proof. intros H. unfold pushListingId. by rewrite decide_False. Qed.

Lemma pushListingId_dup id st :
  id ∈ all_ids st -> pushListingId id st = (false, st).
Proof. intros H. unfold pushListingId. by rewrite decide_True. Qed.

Lemma pushListingId_member id st : id ∈ all_ids (pushListingId id st).2.
Proof.
  unfold pushListingId. case_decide; simpl; [done | set_solver].
Qed.

Lemma pushListingId_twice id st :
  id ∉ all_ids st ->
  let r1 := pushListingId id st in
  let r2 := pushListingId id r1.2 in
  r1.1 = true /\ r2.1 = false /\ r2.2 = r1.2 /\
  size (all_ids r2.2) = S (size (all_ids st)) /\
  queue r2.2 = id :: queue st.
Proof.
  intros Hnew. cbn zeta. rewrite (pushListingId_new _ _ Hnew). cbn [fst snd].
  rewrite pushListingId_dup; [| cbn; set_solver]. cbn.
  repeat split. rewrite size_union; [| set_solver].
  by rewrite size_singleton.
Qed.

Lemma pushListingId_last_seen id st :
  last_seen (pushListingId id st).2 = last_seen st.
Proof. unfold pushListingId. by case_decide. Qed.

(** The batched push of a single identifier does refresh the timestamp,
    whether or not the identifier is new. *)
Lemma pushListingIds_single now id st :
  let r := pushListingIds now [id] st in
  getLastSeen id r.2 = Some now /\
  id ∈ all_ids r.2 /\
  (id ∉ all_ids st -> r.1 = 1%nat /\ queue r.2 = id :: queue st) /\
  (id ∈ all_ids st -> r.1 = 0%nat /\ queue r.2 = queue st).
Proof.
  cbn zeta. unfold pushListingIds. cbn [length batches take drop fold_left].
  unfold pushBatch. cbn [pushBatchPipeline].
  destruct (decide (id ∈ all_ids st)) as [Hin | Hnin].
  - rewrite bool_decide_eq_false_2 by (intros H; by apply H).
    cbn. unfold getLastSeen; cbn. rewrite lookup_insert_eq.
    split; [done |]. split; [set_solver |]. split; done.
  - rewrite bool_decide_eq_true_2 by done.
    cbn. unfold getLastSeen; cbn. rewrite lookup_insert_eq.
    split; [done |]. split; [set_solver |]. split; done.
Qed.

(** C1 (last-seen part, evaluated on the code): pushing identifier "A" to a
    fresh store with [pushListingId] puts it in the discovery set and on the
    lane but records no last-seen timestamp, so the very next sweep lists it
    as missing; the batched [pushListingIds] on the same input records [now]. *)
Theorem pushListingId_skips_last_seen :
  let st := (pushListingId "A" empty_store).2 in
  "A" ∈ all_ids st /\ queue st = ["A"] /\
  getLastSeen "A" st = None /\
  findMissingProperties 1700000000000 24 st = ["A"] /\
  getLastSeen "A" (pushListingIds 1700000000000 ["A"] empty_store).2
    = Some 1700000000000.
Proof.
  cbn zeta. split; [apply pushListingId_member |].
  split; [done |]. split; [done |]. split; [| by vm_compute].
  by vm_compute.
Qed.

(** ** Snapshots and change detection *)

Lemma importantData_sortedInPlace p :
  importantData (sortedInPlace p) = importantData p.
Proof.
  unfold importantData, sortedInPlace; cbn [rent salePrice price description
    visitStatus status imageList images amenities installations bedrooms
    bathrooms area address city].
  destruct (amenities p), (installations p); cbn [fmap option_fmap option_map Js.or_arr];
    by rewrite ?sort_idem.
Qed.

Lemma checksum_sortedInPlace p :
  (calculatePropertyChecksum (sortedInPlace p)).1 = (calculatePropertyChecksum p).1.
Proof.
  unfold calculatePropertyChecksum, dataString. cbn [fst].
  by rewrite importantData_sortedInPlace.
Qed.

Lemma storePropertySnapshot_lookup now id p st :
  getPropertySnapshot id (storePropertySnapshot now id p st).1 =
    Some {| checksum := (calculatePropertyChecksum p).1;
            snap_price := Js.to_string
              (Js.or (Js.or (Js.or (rent p) (salePrice p)) (price p)) (Js.JsNum 0));
            snap_status := Js.to_string
              (Js.or (Js.or (visitStatus p) (status p)) (Js.JsStr "unknown"));
            updated_at := now |}.
Proof.
  unfold storePropertySnapshot, getPropertySnapshot, calculatePropertyChecksum.
  cbn. by rewrite lookup_insert_eq.
Qed.

Lemma storePropertySnapshot_arg now id p st :
  (storePropertySnapshot now id p st).2 = sortedInPlace p.
Proof. done. Qed.

(** After a snapshot of [p], [hasPropertyChanged] compares checksums. *)
Lemma hasPropertyChanged_after_store now id p q st :
  (hasPropertyChanged id q (storePropertySnapshot now id p st).1).1 =
    negb (String.eqb (calculatePropertyChecksum p).1
                     (calculatePropertyChecksum q).1).
Proof.
  unfold hasPropertyChanged. rewrite storePropertySnapshot_lookup. done.
Qed.

(** C2: an identifier without a stored snapshot always counts as changed;
    and once [storePropertySnapshot id p] has run, [hasPropertyChanged id]
    answers false both for the very object that was stored (whose arrays the
    call has sorted in place) and for an identical fresh copy of the record. *)
Theorem hasPropertyChanged_snapshot_roundtrip :
  (forall id p st,
      getPropertySnapshot id st = None ->
      (hasPropertyChanged id p st).1 = true) /\
  (forall now id p st,
      let st' := (storePropertySnapshot now id p st).1 in
      let p' := (storePropertySnapshot now id p st).2 in
      (hasPropertyChanged id p' st').1 = false /\
      (hasPropertyChanged id p st').1 = false).
Proof.
  split.
  - intros id p st Hnone. unfold hasPropertyChanged. by rewrite Hnone.
  - intros now id p st. cbn zeta.
    rewrite !hasPropertyChanged_after_store, storePropertySnapshot_arg.
    rewrite checksum_sortedInPlace, String.eqb_refl. done.
Qed.

Lemma hasPropertyChanged_snapshot_roundtrip_witness :
  getPropertySnapshot "X1" empty_store = None /\
  (hasPropertyChanged "X1" sampleListing empty_store).1 = true.
Proof.
  split; [reflexivity |].
  apply (proj1 hasPropertyChanged_snapshot_roundtrip). reflexivity.
Defined.

(** ** The canonical text determines the canonical record *)

Lemma append_nil (b : string) : EmptyString +:+ b = b.
Proof. reflexivity. Qed.

Lemma append_cons c (a b : string) : String c a +:+ b = String c (a +:+ b).
Proof. reflexivity. Qed.

Lemma append_assoc (a b c : string) : (a +:+ b) +:+ c = a +:+ (b +:+ c).
Proof.
  induction a as [| x a IH]; [done |]. rewrite !append_cons. by rewrite IH.
Qed.

Lemma append_cancel_l (a x y : string) : a +:+ x = a +:+ y -> x = y.
Proof. apply String.app_inj. Qed.

Lemma unquoteJSONHead_quote c x :
  unquoteJSONHead (quoteJSONChar c +:+ x) = Some (c, x).
Proof. by destruct c as [[] [] [] [] [] [] [] []]. Qed.

Lemma quoteJSONChar_not_dquote c x :
  startsWith 34 (quoteJSONChar c +:+ x) = false.
Proof. by destruct c as [[] [] [] [] [] [] [] []]. Qed.

Lemma quoteJSONBody_delimited s s' t t' :
  quoteJSONBody s +:+ dquote +:+ t = quoteJSONBody s' +:+ dquote +:+ t' ->
  s = s' /\ t = t'.
Proof.
  revert s'. induction s as [| c s IH]; intros [| c' s'] H.
  - cbn [quoteJSONBody] in H. rewrite !append_nil in H.
    by apply append_cancel_l in H.
  - cbn [quoteJSONBody] in H. rewrite append_assoc in H.
    pose proof (quoteJSONChar_not_dquote c' (quoteJSONBody s' +:+ dquote +:+ t')) as Hq.
    rewrite <- H in Hq. done.
  - cbn [quoteJSONBody] in H. rewrite append_assoc in H.
    pose proof (quoteJSONChar_not_dquote c (quoteJSONBody s +:+ dquote +:+ t)) as Hq.
    rewrite H in Hq. done.
  - cbn [quoteJSONBody] in H. rewrite !append_assoc in H.
    pose proof (unquoteJSONHead_quote c (quoteJSONBody s +:+ dquote +:+ t)) as H1.
    rewrite H, unquoteJSONHead_quote in H1. injection H1 as <- H1.
    symmetry in H1. destruct (IH s' H1) as [-> ->]. done.
Qed.

Lemma quoteJSONString_delimited s s' t t' :
  quoteJSONString s +:+ t = quoteJSONString s' +:+ t' -> s = s' /\ t = t'.
Proof.
  unfold quoteJSONString. rewrite !append_assoc. intros H.
  apply append_cancel_l in H. by apply quoteJSONBody_delimited.
Qed.

Lemma pretty_N_go_numchars x s :
  allNumChars s = true -> allNumChars (pretty_N_go x s) = true.
Proof.
  revert s. induction (N.lt_wf_0 x) as [x _ IH]; intros s Hs.
  assert (x = 0 \/ 0 < x)%N as [-> | Hpos] by lia.
  - by rewrite pretty_N_go_0.
  - rewrite pretty_N_go_step by done. apply IH; [by apply N.div_lt |].
    cbn [allNumChars]. rewrite Hs, andb_true_r.
    unfold pretty_N_char. by repeat case_match.
Qed.

Lemma pretty_Z_numchars (z : Z) : allNumChars (pretty z) = true.
Proof.
  assert (forall n : N, allNumChars (pretty n) = true) as HN.
  { intros n. unfold pretty, pretty_N. case_decide; [done |].
    by apply pretty_N_go_numchars. }
  destruct z as [| x | x]; [done | apply HN |].
  change (pretty (Z.neg x)) with ("-" +:+ pretty (N.pos x)).
  rewrite append_cons, append_nil. cbn [allNumChars]. by rewrite HN.
Qed.

Lemma isNumChar_not_delimiter c rest :
  isNumChar c = true -> startsWithDelimiter (String c rest) = false.
Proof. by destruct c as [[] [] [] [] [] [] [] []]. Qed.

Lemma numChars_delimited a a' t t' :
  allNumChars a = true -> allNumChars a' = true ->
  startsWithDelimiter t = true -> startsWithDelimiter t' = true ->
  a +:+ t = a' +:+ t' -> a = a' /\ t = t'.
Proof.
  revert a'. induction a as [| c a IH]; intros [| c' a'] Ha Ha' Ht Ht' H.
  - by rewrite !append_nil in H.
  - rewrite append_nil, append_cons in H. subst t.
    cbn [allNumChars] in Ha'. apply andb_true_iff in Ha' as [Hc _].
    by rewrite (isNumChar_not_delimiter _ _ Hc) in Ht.
  - rewrite append_nil, append_cons in H. subst t'.
    cbn [allNumChars] in Ha. apply andb_true_iff in Ha as [Hc _].
    by rewrite (isNumChar_not_delimiter _ _ Hc) in Ht'.
  - rewrite !append_cons in H. injection H as <- H.
    cbn [allNumChars] in Ha, Ha'.
    apply andb_true_iff in Ha as [_ Ha]. apply andb_true_iff in Ha' as [_ Ha'].
    destruct (IH a' Ha Ha' Ht Ht' H) as [-> ->]. done.
Qed.

Lemma numeric_start a t :
  allNumChars a = true -> startsWithDelimiter t = true ->
  startsNumeric (a +:+ t) = true.
Proof.
  intros Ha Ht. destruct a as [| c a].
  - rewrite append_nil. destruct t as [| c t]; [done |].
    unfold startsNumeric. by rewrite Ht, orb_true_r.
  - rewrite append_cons. cbn [allNumChars] in Ha.
    apply andb_true_iff in Ha as [Hc _]. unfold startsNumeric. by rewrite Hc.
Qed.

Lemma quoteJSONString_start s t :
  quoteJSONString s +:+ t =
    String (ascii_of_nat 34) (quoteJSONBody s +:+ dquote +:+ t).
Proof. unfold quoteJSONString. by rewrite !append_assoc. Qed.

(** A property value followed by a comma or a closing brace can be read back:
    the text fixes both the value and what follows it. *)
Lemma stringifyVal_delimited v v' e e' t t' :
  stringifyVal v = Some e -> stringifyVal v' = Some e' ->
  startsWithDelimiter t = true -> startsWithDelimiter t' = true ->
  e +:+ t = e' +:+ t' -> v = v' /\ t = t'.
Proof.
  intros He He' Ht Ht' H.
  destruct v as [| | [] | z | s]; destruct v' as [| | [] | z' | s'];
    cbn in He, He'; try discriminate;
    injection He as <-; injection He' as <-.
  all: lazymatch type of H with
       | pretty ?z1 +:+ _ = pretty ?z2 +:+ _ =>
           destruct (numChars_delimited _ _ _ _ (pretty_Z_numchars z1)
                       (pretty_Z_numchars z2) Ht Ht' H) as [Hz ->];
           by apply (inj pretty) in Hz as ->
       | quoteJSONString _ +:+ _ = quoteJSONString _ +:+ _ =>
           by destruct (quoteJSONString_delimited _ _ _ _ H) as [-> ->]
       | pretty ?z1 +:+ _ = _ =>
           pose proof (numeric_start _ _ (pretty_Z_numchars z1) Ht) as Hn;
           rewrite H in Hn; rewrite ?quoteJSONString_start in Hn; done
       | _ = pretty ?z2 +:+ _ =>
           pose proof (numeric_start _ _ (pretty_Z_numchars z2) Ht') as Hn;
           rewrite <- H in Hn; rewrite ?quoteJSONString_start in Hn; done
       | _ =>
           rewrite ?quoteJSONString_start in H;
           first [ discriminate H
                 | apply append_cancel_l in H; by subst ]
       end.
Qed.

Lemma stringifyVal_defined v : v <> Js.JsUndefined -> is_Some (stringifyVal v).
Proof. destruct v as [| | [] | |]; cbn; eauto. by intros []. Qed.

Lemma join_cons2 sep x y l :
  Js.join sep (x :: y :: l) = x +:+ sep +:+ Js.join sep (y :: l).
Proof. reflexivity. Qed.

Lemma objectTail_delimiter es :
  startsWithDelimiter
    (match es with [] => "}" | _ => "," +:+ Js.join "," es +:+ "}" end) = true.
Proof. by destruct es. Qed.

Lemma join_tail e es :
  Js.join "," (e :: es) +:+ "}" =
  e +:+ match es with [] => "}" | _ => "," +:+ Js.join "," es +:+ "}" end.
Proof.
  destruct es as [| e2 es]; [done |]. by rewrite join_cons2, !append_assoc.
Qed.

Lemma omap_stringifyProp_cons k v e kvs :
  stringifyVal v = Some e ->
  omap stringifyProp ((k, v) :: kvs)
  = (quoteJSONString k +:+ ":" +:+ e) :: omap stringifyProp kvs.
Proof.
  intros He. change (omap stringifyProp ((k, v) :: kvs)) with
    (match stringifyProp (k, v) with
     | Some y => y :: omap stringifyProp kvs
     | None => omap stringifyProp kvs
     end).
  unfold stringifyProp at 1. cbn [fst snd]. by rewrite He.
Qed.

Lemma stringifyProps_inj kvs kvs' :
  kvs.*1 = kvs'.*1 ->
  Forall defined kvs -> Forall defined kvs' ->
  Js.join "," (omap stringifyProp kvs) +:+ "}"
  = Js.join "," (omap stringifyProp kvs') +:+ "}" ->
  kvs = kvs'.
Proof.
  revert kvs'. induction kvs as [| [k v] kvs IH]; intros [| [k' v'] kvs'] Hk Hd Hd' H;
    try done.
  cbn in Hk. injection Hk as <- Hk.
  apply Forall_cons in Hd as [Hv Hd]. apply Forall_cons in Hd' as [Hv' Hd'].
  destruct (stringifyVal_defined v Hv) as [e He].
  destruct (stringifyVal_defined v' Hv') as [e' He'].
  rewrite (omap_stringifyProp_cons _ _ _ _ He),
          (omap_stringifyProp_cons _ _ _ _ He') in H.
  rewrite !join_tail, !append_assoc in H.
  apply append_cancel_l, append_cancel_l in H.
  destruct (stringifyVal_delimited _ _ _ _ _ _ He He'
              (objectTail_delimiter _) (objectTail_delimiter _) H) as [-> Ht].
  f_equal. apply IH; try done.
  destruct (omap stringifyProp kvs) as [| a l] eqn:E1;
    destruct (omap stringifyProp kvs') as [| a' l'] eqn:E2.
  - done.
  - exfalso. destruct kvs as [| kv kvs]; [| ].
    + by destruct kvs'.
    + apply Forall_cons in Hd as [Hkv _].
      destruct (stringifyVal_defined _ Hkv) as [x Hx].
      destruct kv as [k1 v1]. by rewrite (omap_stringifyProp_cons _ _ _ _ Hx) in E1.
  - exfalso. destruct kvs' as [| kv kvs']; [| ].
    + by destruct kvs.
    + apply Forall_cons in Hd' as [Hkv _].
      destruct (stringifyVal_defined _ Hkv) as [x Hx].
      destruct kv as [k1 v1]. by rewrite (omap_stringifyProp_cons _ _ _ _ Hx) in E2.
  - apply append_cancel_l in Ht. done.
Qed.

Lemma or_defined a d : d <> Js.JsUndefined -> Js.or a d <> Js.JsUndefined.
Proof. unfold Js.or. destruct a as [| | [] | z | s]; cbn; try done; by case_match. Qed.

Lemma importantData_defined p : Forall defined (importantData p).
Proof.
  unfold importantData, defined. repeat apply Forall_cons_2; cbn [snd];
    try apply Forall_nil_2; repeat apply or_defined; done.
Qed.

Lemma importantData_keys p q : (importantData p).*1 = (importantData q).*1.
Proof. reflexivity. Qed.

(** The canonical text is a faithful rendering of the canonical record. *)
Lemma dataString_inj p q :
  dataString p = dataString q -> importantData p = importantData q.
Proof.
  unfold dataString, stringifyObject. intros H.
  apply append_cancel_l in H.
  apply stringifyProps_inj; auto using importantData_defined, importantData_keys.
Qed.

(** C3 as stated fails on the code: the listing [sampleListing] is stored
    with status "Aa"; the same listing with status "BB" has another canonical
    string but the same 32-bit checksum, so the status change goes unseen. *)
Lemma status_change_hash_collision :
  let p := sampleListing in
  let q := with_visitStatus (Js.JsStr "BB") sampleListing in
  visitStatus p <> visitStatus q /\
  dataString p <> dataString q /\
  (hasPropertyChanged "X1" q
     (storePropertySnapshot 1700000000000 "X1" p empty_store).1).1 = false.
Proof. cbn zeta. split; [done |]. split; [| by vm_compute]. by vm_compute. Qed.

(** The image list is joined in the order given: swapping the two images of
    [sampleListing] is reported as a change. *)
Example image_order_is_tracked :
  (hasPropertyChanged "X1"
     (with_imageList (Some ["a.jpg"; "b.jpg"]) sampleListing)
     (storePropertySnapshot 1700000000000 "X1" sampleListing empty_store).1).1
  = true.
Proof. by vm_compute. Qed.

(** Changes of the sale price, of one image and of one amenity of
    [sampleListing] are each reported. *)
Example single_field_changes_detected :
  let st := (storePropertySnapshot 1700000000000 "X1" sampleListing empty_store).1 in
  (hasPropertyChanged "X1" (with_salePrice (Js.JsNum 449000) sampleListing) st).1 = true /\
  (hasPropertyChanged "X1" (with_visitStatus (Js.JsStr "Sold") sampleListing) st).1 = true /\
  (hasPropertyChanged "X1" (with_imageList (Some ["b.jpg"; "c.jpg"]) sampleListing) st).1 = true /\
  (hasPropertyChanged "X1" (with_amenities (Some ["pool"; "sauna"]) sampleListing) st).1 = true.
Proof. cbn zeta. repeat split; by vm_compute. Qed.

Lemma importantData_with_amenities_perm p l l' :
  l ≡ₚ l' ->
  importantData (with_amenities (Some l') p) = importantData (with_amenities (Some l) p).
Proof.
  intros Hp. unfold importantData, with_amenities;
    cbn [rent salePrice price description visitStatus status imageList images
         amenities installations bedrooms bathrooms area address city Js.or_arr].
  by rewrite (sort_of_perm _ _ Hp).
Qed.

Lemma importantData_with_installations_perm p l l' :
  l ≡ₚ l' ->
  importantData (with_installations (Some l') p)
  = importantData (with_installations (Some l) p).
Proof.
  intros Hp. unfold importantData, with_installations;
    cbn [rent salePrice price description visitStatus status imageList images
         amenities installations bedrooms bathrooms area address city Js.or_arr].
  by rewrite (sort_of_perm _ _ Hp).
Qed.

Lemma checksum_eq_iff p q :
  (calculatePropertyChecksum q).1 = (calculatePropertyChecksum p).1 <->
  hashLoop (dataString q) 0 = hashLoop (dataString p) 0.
Proof.
  unfold calculatePropertyChecksum, hashString; cbn [fst]. split.
  - apply (inj pretty).
  - by intros ->.
Qed.

(** C3 (amended): with a snapshot of [p] stored, [hasPropertyChanged]
    answers true exactly when the 32-bit hash of the current listing's
    canonical text differs from that of the stored listing's; any difference
    in a canonical tracked value (price, status, joined image list, joined
    sorted amenities, ...) makes the canonical texts differ, so a
    single-field change goes unreported only when the two texts collide
    under the hash; and a listing whose amenity list, or whose feature
    (installations) list, is a permutation of the stored listing's is
    reported as unchanged. *)
Theorem hasPropertyChanged_checksum_and_permutations :
  (forall now id p q st,
      (hasPropertyChanged id q (storePropertySnapshot now id p st).1).1 = true
      <-> hashLoop (dataString q) 0 <> hashLoop (dataString p) 0) /\
  (forall p q,
      importantData q <> importantData p -> dataString q <> dataString p) /\
  (forall now id p l l' st,
      l ≡ₚ l' ->
      (hasPropertyChanged id (with_amenities (Some l') p)
         (storePropertySnapshot now id (with_amenities (Some l) p) st).1).1 = false) /\
  (forall now id p l l' st,
      l ≡ₚ l' ->
      (hasPropertyChanged id (with_installations (Some l') p)
         (storePropertySnapshot now id (with_installations (Some l) p) st).1).1 = false).
Proof.
  split; [| split; [| split]].
  - intros now id p q st. rewrite hasPropertyChanged_after_store.
    rewrite <- checksum_eq_iff.
    destruct (String.eqb_spec (calculatePropertyChecksum p).1
                              (calculatePropertyChecksum q).1) as [-> | Hne];
      cbn; split; try done; intros _ Heq; by apply Hne.
  - intros p q Hne Heq. by apply Hne, dataString_inj.
  - intros now id p l l' st Hp. rewrite hasPropertyChanged_after_store.
    unfold calculatePropertyChecksum, dataString; cbn [fst].
    by rewrite (importantData_with_amenities_perm _ _ _ Hp), String.eqb_refl.
  - intros now id p l l' st Hp. rewrite hasPropertyChanged_after_store.
    unfold calculatePropertyChecksum, dataString; cbn [fst].
    by rewrite (importantData_with_installations_perm _ _ _ Hp), String.eqb_refl.
Qed.

Lemma hasPropertyChanged_checksum_and_permutations_witness :
  ["pool"; "gym"] ≡ₚ ["gym"; "pool"] /\
  (hasPropertyChanged "X1" (with_amenities (Some ["gym"; "pool"]) sampleListing)
     (storePropertySnapshot 1700000000000 "X1"
        (with_amenities (Some ["pool"; "gym"]) sampleListing) empty_store).1).1
  = false.
Proof.
  split; [apply perm_swap |].
  apply (proj1 (proj2 (proj2 hasPropertyChanged_checksum_and_permutations))).
  apply perm_swap.
Defined.

(** ** Retry ceiling *)

Lemma maxRetriesMessage_nonempty maxRetries :
  String.eqb (maxRetriesMessage maxRetries) EmptyString = false.
Proof. done. Qed.

Lemma requeueWithRetry_step id maxRetries st :
  let n := getRetryCount id st + 1 in
  let r := requeueWithRetry id maxRetries st in
  getRetryCount id r.2 = n /\
  (n <= maxRetries ->
     r.1 = true /\ queue r.2 = id :: queue st /\
     failed r.2 = failed st /\ failed_errors r.2 = failed_errors st) /\
  (maxRetries < n ->
     r.1 = false /\ queue r.2 = queue st /\ id ∈ failed r.2 /\
     failed_errors r.2 !! id = Some (maxRetriesMessage maxRetries)).
Proof.
  cbn zeta. unfold requeueWithRetry, incrementRetry, getRetryCount.
  destruct (Z.leb_spec (default 0 (retries st !! id) + 1) maxRetries) as [Hle | Hgt].
  - cbn. rewrite lookup_insert_eq. cbn. split; [done |]. split; [done | lia].
  - unfold markFailed. rewrite maxRetriesMessage_nonempty. cbn.
    rewrite !lookup_insert_eq. cbn. split; [done |]. split; [lia |].
    intros _. repeat split. set_solver.
Qed.

Lemma requeueTimes_below k id maxRetries st :
  retries st !! id = None ->
  Z.of_nat k <= maxRetries ->
  let r := requeueTimes k id maxRetries st in
  r.1 = replicate k true /\
  queue r.2 = replicate k id ++ queue st /\
  getRetryCount id r.2 = Z.of_nat k /\
  failed r.2 = failed st /\ failed_errors r.2 = failed_errors st.
Proof.
  intros Hfresh. induction k as [| k IH]; intros Hk; cbn zeta.
  - cbn. unfold getRetryCount. by rewrite Hfresh.
  - cbn [requeueTimes].
    destruct (requeueTimes k id maxRetries st) as [rs st1] eqn:E.
    destruct IH as (Hrs & Hq & Hn & Hf & He); [lia |]. cbn [fst snd] in *.
    pose proof (requeueWithRetry_step id maxRetries st1) as Hstep.
    cbn zeta in Hstep.
    destruct (requeueWithRetry id maxRetries st1) as [r st2].
    cbn [fst snd] in *. destruct Hstep as (Hn2 & Hok & _).
    destruct Hok as (-> & Hq2 & Hf2 & He2); [lia |].
    rewrite Hrs, Hq2, Hq, Hn2, Hn, Hf2, Hf, He2, He.
    repeat split; try done; try lia.
    + clear. induction k as [| k IH]; [done |]. cbn. by rewrite IH.
Qed.

(** C4: every call of [requeueWithRetry] adds one to the identifier's retry
    counter; while the new count is at most [maxRetries] the call pushes the
    identifier on the main lane and returns true, otherwise it returns
    false, leaves the lane alone and records the identifier in the failed
    set with the max-retries message.  Starting from a counter that does not
    exist yet, the first [maxRetries] calls all return true and call number
    [maxRetries + 1] is the one that fails. *)
Theorem requeueWithRetry_ceiling :
  (forall id maxRetries st,
      let n := getRetryCount id st + 1 in
      let r := requeueWithRetry id maxRetries st in
      getRetryCount id r.2 = n /\
      (n <= maxRetries ->
         r.1 = true /\ queue r.2 = id :: queue st /\ failed r.2 = failed st) /\
      (maxRetries < n ->
         r.1 = false /\ queue r.2 = queue st /\ id ∈ failed r.2 /\
         failed_errors r.2 !! id = Some (maxRetriesMessage maxRetries))) /\
  (forall id maxRetries st,
      0 <= maxRetries ->
      retries st !! id = None ->
      let before := requeueTimes (Z.to_nat maxRetries) id maxRetries st in
      let last := requeueWithRetry id maxRetries before.2 in
      before.1 = replicate (Z.to_nat maxRetries) true /\
      queue before.2 = replicate (Z.to_nat maxRetries) id ++ queue st /\
      failed before.2 = failed st /\
      last.1 = false /\
      queue last.2 = queue before.2 /\
      id ∈ failed last.2 /\
      failed_errors last.2 !! id = Some (maxRetriesMessage maxRetries)).
Proof.
  split.
  - intros id maxRetries st. cbn zeta.
    destruct (requeueWithRetry_step id maxRetries st) as (Hn & Hok & Hko).
    split; [done |]. split; [| done].
    intros Hle. by destruct (Hok Hle) as (? & ? & ? & _).
  - intros id maxRetries st Hpos Hfresh. cbn zeta.
    destruct (requeueTimes_below (Z.to_nat maxRetries) id maxRetries st Hfresh)
      as (Hrs & Hq & Hn & Hf & _); [lia |].
    destruct (requeueWithRetry_step id maxRetries
                (requeueTimes (Z.to_nat maxRetries) id maxRetries st).2)
      as (_ & _ & Hko).
    destruct Hko as (? & ? & ? & ?); [lia |]. done.
Qed.

Lemma requeueWithRetry_ceiling_witness :
  0 <= 3 /\ retries empty_store !! "A" = None /\
  (requeueTimes 3 "A" 3 empty_store).1 = [true; true; true] /\
  (requeueWithRetry "A" 3 (requeueTimes 3 "A" 3 empty_store).2).1 = false.
Proof.
  split; [lia |]. split; [reflexivity |].
  destruct (proj2 requeueWithRetry_ceiling "A" 3 empty_store) as (H1 & _ & _ & H4 & _);
    [lia | reflexivity |].
  split; [exact H1 | exact H4].
Defined.

(** ** Disappearance verifier *)

(** C5 as stated fails on the code: an empty 2xx reply, and a 2xx reply
    whose body is not a listing, are both read as "not found": the
    identifier is marked verified-inactive and the sink is told so. *)
Lemma empty_response_marks_inactive :
  let cfg := {| apiKey := true; sinkAccepts := true |} in
  let v := newVerifier (pushListingIds 1600000000000 ["A"] empty_store).2 in
  let r1 := processMissingProperty cfg 1700000000000 (Responded DataFalsy) "A" v in
  let r2 := processMissingProperty cfg 1700000000000 (Responded DataOther) "A" v in
  (r1.1 = true /\ "A" ∈ verified_inactive (v_queue r1.2) /\
   v_posted r1.2 = [mkInactiveMark "A" "not_found"]) /\
  (r2.1 = true /\ "A" ∈ verified_inactive (v_queue r2.2) /\
   v_posted r2.2 = [mkInactiveMark "A" "not_found"]).
Proof. cbn zeta. repeat split; by vm_compute. Qed.

Lemma verifyProperty_cases fetch :
  verifyProperty fetch =
    if rethrown fetch then Threw
    else if readAsNotFound fetch then Returned false else Returned true.
Proof.
  destruct fetch as [d | s | |]; cbn; try done.
  - by destruct (dataHasId d).
  - by destruct (s =? 404).
Qed.

(** C5 (amended): [verifyProperty] rethrows exactly the fetch failures other
    than HTTP 404 (no response at all, any other HTTP error status, any other
    exception), and for each of them [processMissingProperty] returns false
    and leaves the store, the sink and the counters as they were.  The
    identifier becomes verified-inactive, and the sink is notified, only for
    a reply read as not-found: HTTP 404, or a 2xx reply without a truthy Id.
    For such a reply, unless the sink call itself throws, the identifier is
    marked verified-inactive and, with credentials configured, the sink
    receives one "not_found" mark. *)
Theorem processMissingProperty_classification :
  forall cfg now fetch id v,
    let r := processMissingProperty cfg now fetch id v in
    (rethrown fetch = true <->
       fetch = NoResponse \/ fetch = OtherError \/
       exists s, fetch = HttpError s /\ s <> 404) /\
    (rethrown fetch = true -> r = (false, v)) /\
    (verified_inactive (v_queue r.2) <> verified_inactive (v_queue v) \/
     v_posted r.2 <> v_posted v ->
       readAsNotFound fetch = true) /\
    (readAsNotFound fetch = true ->
     apiKey cfg = false \/ sinkAccepts cfg = true ->
       r.1 = true /\
       v_queue r.2 = markVerifiedInactive id (v_queue v) /\
       v_posted r.2 =
         (if apiKey cfg then v_posted v ++ [mkInactiveMark id "not_found"]
          else v_posted v)).
Proof.
  intros cfg now fetch id v. cbn zeta.
  unfold processMissingProperty. rewrite verifyProperty_cases.
  split; [| split; [| split]].
  - destruct fetch as [d | s | |]; cbn.
    + split; [done |]. intros [H | [H | (s & H & _)]]; done.
    + destruct (Z.eqb_spec s 404) as [-> | Hne]; cbn.
      * split; [done |]. intros [H | [H | (s & H & Hs)]]; try done.
        by injection H as <-.
      * split; [| done]. intros _. right; right. by exists s.
    + split; [| done]. intros _. by left.
    + split; [| done]. intros _. right; by left.
  - by intros ->.
  - destruct (rethrown fetch); [intros [H | H]; done |].
    destruct (readAsNotFound fetch); [done |].
    cbn. intros [H | H]; done.
  - intros Hnf Hsink.
    assert (rethrown fetch = false) as ->.
    { destruct fetch as [d | s | |]; cbn in *; try done. by rewrite Hnf. }
    rewrite Hnf. unfold markPropertyInactive.
    destruct (apiKey cfg); cbn; [| done].
    destruct Hsink as [H | ->]; done.
Qed.

Lemma processMissingProperty_classification_witness :
  let cfg := {| apiKey := true; sinkAccepts := true |} in
  let v := newVerifier empty_store in
  (rethrown (HttpError 503) = true /\
   processMissingProperty cfg 1700000000000 (HttpError 503) "A" v = (false, v)) /\
  (readAsNotFound (HttpError 404) = true /\
   (apiKey cfg = false \/ sinkAccepts cfg = true) /\
   v_queue (processMissingProperty cfg 1700000000000 (HttpError 404) "A" v).2
   = markVerifiedInactive "A" empty_store).
Proof.
  cbn zeta. split.
  - split; [reflexivity |].
    apply (proj1 (proj2 (processMissingProperty_classification
              {| apiKey := true; sinkAccepts := true |} 1700000000000
              (HttpError 503) "A" (newVerifier empty_store)))).
    reflexivity.
  - split; [reflexivity |]. split; [right; reflexivity |].
    apply (proj2 (proj2 (proj2 (processMissingProperty_classification
              {| apiKey := true; sinkAccepts := true |} 1700000000000
              (HttpError 404) "A" (newVerifier empty_store))))).
    + reflexivity.
    + right; reflexivity.
Defined.

(** ** Missing-identifier sweep *)

Lemma elem_of_rev (x : string) (l : list string) : x ∈ rev l <-> x ∈ l.
Proof. rewrite !list_elem_of_In. symmetry. apply in_rev. Qed.

Lemma set_missing_queue_id st : set_missing_queue (missing_queue st) st = st.
Proof. by destruct st. Qed.

Lemma pushToMissing_fold ids n st :
  fold_left pushToMissingStep ids (n, st) =
    ((n + length (filter (fun x => x ∉ verified_inactive st) ids))%nat,
     set_missing_queue
       (rev (filter (fun x => x ∉ verified_inactive st) ids) ++ missing_queue st)
       st).
Proof.
  revert n st. induction ids as [| x ids IH]; intros n st.
  - cbn. by rewrite Nat.add_0_r, set_missing_queue_id.
  - cbn [fold_left pushToMissingStep]. rewrite filter_cons.
    destruct (decide (x ∈ verified_inactive st)) as [Hin | Hnin].
    + rewrite decide_False by (intros H; by apply H). apply IH.
    + rewrite decide_True by done. rewrite IH. cbn.
      rewrite <- app_assoc. cbn. f_equal. lia.
Qed.

Lemma pushToMissingQueue_spec ids st :
  pushToMissingQueue ids st =
    (length (filter (fun x => x ∉ verified_inactive st) ids),
     set_missing_queue
       (rev (filter (fun x => x ∉ verified_inactive st) ids) ++ missing_queue st)
       st).
Proof.
  unfold pushToMissingQueue. destruct ids as [| x ids].
  - cbn. by rewrite set_missing_queue_id.
  - by rewrite pushToMissing_fold.
Qed.

Lemma findMissingProperties_elem now hoursThreshold st id :
  id ∈ findMissingProperties now hoursThreshold st <->
  id ∈ all_ids st /\
  notSeenRecently (cutoffTime now hoursThreshold) (getLastSeen id st) = true.
Proof.
  unfold findMissingProperties. rewrite list_elem_of_filter, elem_of_elements.
  tauto.
Qed.

Lemma identifyMissingProperties_spec now hoursThreshold st :
  identifyMissingProperties now hoursThreshold st =
    set_missing_queue
      (rev (filter (fun x => x ∉ verified_inactive st)
              (findMissingProperties now hoursThreshold st))
       ++ missing_queue st) st.
Proof.
  unfold identifyMissingProperties.
  destruct (findMissingProperties now hoursThreshold st) as [| x l] eqn:E.
  - cbn. by rewrite set_missing_queue_id.
  - by rewrite pushToMissingQueue_spec.
Qed.

(** C6: for an identifier of the discovery set whose last-seen timestamp, if
    there is one, is a real clock reading (not 0), the sweep selects it
    exactly when the timestamp is absent or strictly below
    [now - hoursThreshold] hours; with a 24 hour threshold a timestamp 25
    hours old is selected and one an hour old is not; and
    [identifyMissingProperties] pushes on the missing lane exactly the
    selected identifiers that are not verified-inactive, and changes nothing
    else. *)
Theorem findMissingProperties_eligibility :
  (forall now hoursThreshold st id,
      id ∈ all_ids st ->
      (forall t, getLastSeen id st = Some t -> t <> 0) ->
      (id ∈ findMissingProperties now hoursThreshold st <->
       getLastSeen id st = None \/
       exists t, getLastSeen id st = Some t /\
                 t < now - hoursThreshold * hourMs)) /\
  (forall now id,
      25 * hourMs < now ->
      id ∈ findMissingProperties now 24 (seenAt id (now - 25 * hourMs)) /\
      id ∉ findMissingProperties now 24 (seenAt id (now - 1 * hourMs))) /\
  (forall now hoursThreshold st,
      let st' := identifyMissingProperties now hoursThreshold st in
      (exists pushed,
          missing_queue st' = pushed ++ missing_queue st /\
          forall id, id ∈ pushed <->
                     id ∈ findMissingProperties now hoursThreshold st /\
                     id ∉ verified_inactive st) /\
      st' = set_missing_queue (missing_queue st') st).
Proof.
  split; [| split].
  - intros now h st id Hin Hreal.
    rewrite findMissingProperties_elem. unfold notSeenRecently, cutoffTime, hourMs.
    destruct (getLastSeen id st) as [t |] eqn:E.
    + specialize (Hreal t eq_refl). split.
      * intros [_ H]. right. exists t. split; [done |].
        rewrite orb_true_iff, Z.eqb_eq, Z.ltb_lt in H. lia.
      * intros [H | (t' & H & Hlt)]; [done |]. injection H as <-.
        split; [done |]. rewrite orb_true_iff, Z.ltb_lt. right. lia.
    + split; [by left | done].
  - intros now id Hnow. split.
    + apply findMissingProperties_elem. split; [cbn; set_solver |].
      unfold getLastSeen, seenAt; cbn. rewrite lookup_singleton_eq. cbn.
      rewrite orb_true_iff, Z.ltb_lt. right. unfold cutoffTime, hourMs. lia.
    + rewrite findMissingProperties_elem. intros [_ H]. revert H.
      unfold getLastSeen, seenAt; cbn. rewrite lookup_singleton_eq. cbn.
      unfold cutoffTime, hourMs. rewrite orb_true_iff, Z.eqb_eq, Z.ltb_lt.
      unfold hourMs in Hnow. lia.
  - intros now h st. cbn zeta. rewrite identifyMissingProperties_spec. cbn.
    split; [| done]. eexists. split; [done |].
    intros id. rewrite elem_of_rev, list_elem_of_filter. tauto.
Qed.

Lemma findMissingProperties_eligibility_witness :
  let now := 1700000000000 in
  let st := seenAt "A" (now - 25 * hourMs) in
  ("A" ∈ all_ids st /\
   (forall t, getLastSeen "A" st = Some t -> t <> 0) /\
   ("A" ∈ findMissingProperties now 24 st <->
    getLastSeen "A" st = None \/
    exists t, getLastSeen "A" st = Some t /\ t < now - 24 * hourMs)) /\
  (25 * hourMs < now /\
   "A" ∈ findMissingProperties now 24 (seenAt "A" (now - 25 * hourMs)) /\
   "A" ∉ findMissingProperties now 24 (seenAt "A" (now - 1 * hourMs))).
Proof.
  cbn zeta.
  assert ("A" ∈ all_ids (seenAt "A" (1700000000000 - 25 * hourMs))) as Hin
    by (change ("A" ∈ ({["A"]} : gset string)); by apply elem_of_singleton_2).
  assert (forall t, getLastSeen "A" (seenAt "A" (1700000000000 - 25 * hourMs))
                    = Some t -> t <> 0) as Hreal.
  { intros t Ht. vm_compute in Ht. injection Ht as <-. discriminate. }
  split.
  - split; [exact Hin |]. split; [exact Hreal |].
    exact (proj1 findMissingProperties_eligibility 1700000000000 24
             (seenAt "A" (1700000000000 - 25 * hourMs)) "A" Hin Hreal).
  - split; [reflexivity |].
    apply (proj1 (proj2 findMissingProperties_eligibility) 1700000000000 "A").
    reflexivity.
Defined.

(** C9: an identifier of the verified-inactive set that occurs in the list
    given to [pushToMissingQueue] is dropped: the call returns the number of
    listed identifiers that are not verified-inactive, puts exactly those on
    the missing lane (the identifier is not among them), and its result and
    the store it leaves are the same as for the list without the
    identifier. *)
Theorem pushToMissingQueue_drops_verified_inactive :
  forall id ids st,
    id ∈ verified_inactive st ->
    id ∈ ids ->
    let r := pushToMissingQueue ids st in
    let queued := filter (fun x => x ∉ verified_inactive st) ids in
    r.1 = length queued /\
    missing_queue r.2 = rev queued ++ missing_queue st /\
    (id ∉ queued) /\
    (r.1 < length ids)%nat /\
    r = pushToMissingQueue (filter (fun x => x <> id) ids) st.
Proof.
  intros id ids st Hvi Hin. cbn zeta. rewrite !pushToMissingQueue_spec. cbn.
  split; [done |]. split; [done |].
  split; [rewrite list_elem_of_filter; tauto |].
  split.
  - clear -Hvi Hin. induction ids as [| x ids IH]; [by apply elem_of_nil in Hin |].
    rewrite filter_cons. apply elem_of_cons in Hin as [<- | Hin].
    + rewrite decide_False by (intros H; by apply H).
      cbn. pose proof (length_filter (fun x => x ∉ verified_inactive st) ids). lia.
    + specialize (IH Hin). case_decide; cbn; lia.
  - assert (filter (fun x => x ∉ verified_inactive st) (filter (fun x => x <> id) ids)
            = filter (fun x => x ∉ verified_inactive st) ids) as ->; [| done].
    clear Hin. induction ids as [| x ids IH]; [done |].
    rewrite !filter_cons. destruct (decide (x = id)) as [-> | Hne].
    + rewrite decide_False by (intros H; by apply H).
      rewrite decide_False by (intros H; by apply H). done.
    + rewrite decide_True by done. rewrite filter_cons, IH. done.
Qed.

Lemma pushToMissingQueue_drops_verified_inactive_witness :
  let st := markVerifiedInactive "B" empty_store in
  "B" ∈ verified_inactive st /\ "B" ∈ ["A"; "B"; "C"] /\
  (pushToMissingQueue ["A"; "B"; "C"] st).1 = 2%nat /\
  missing_queue (pushToMissingQueue ["A"; "B"; "C"] st).2 = ["C"; "A"].
Proof.
  cbn zeta.
  assert ("B" ∈ verified_inactive (markVerifiedInactive "B" empty_store)) as Hvi
    by (cbn; set_solver).
  assert ("B" ∈ ["A"; "B"; "C"]) as Hin by set_solver.
  split; [exact Hvi |]. split; [exact Hin |].
  destruct (pushToMissingQueue_drops_verified_inactive "B" ["A"; "B"; "C"]
              (markVerifiedInactive "B" empty_store) Hvi Hin) as (H1 & H2 & _).
  split; [rewrite H1 | rewrite H2]; by vm_compute.
Defined.

(** ** Terminal classifications *)

(** C10 as stated fails on the code: after [markFailed] and [markProcessed]
    of one identifier it is in both sets, and after [markVerifiedInactive]
    followed by [markProcessed] it is both verified-inactive and processed. *)
Lemma terminal_sets_overlap :
  let st1 := markProcessed "A" (markFailed "A" (Some "Not found") empty_store) in
  let st2 := markProcessed "A" (markVerifiedInactive "A" empty_store) in
  ("A" ∈ processed st1 /\ "A" ∈ failed st1) /\
  ("A" ∈ processed st2 /\ "A" ∈ verified_inactive st2).
Proof. cbn zeta. cbn. set_solver. Qed.

(** C10 (amended): [markVerifiedInactive] adds the identifier to the
    verified-inactive set and takes it out of the processed set, touching no
    other identifier and no other key; [markProcessed] and [markFailed] only
    add the identifier to their own set and leave the other two sets as they
    are. *)
Theorem markVerifiedInactive_effect :
  forall id st,
    (let st' := markVerifiedInactive id st in
     verified_inactive st' = {[id]} ∪ verified_inactive st /\
     processed st' = processed st ∖ {[id]} /\
     id ∈ verified_inactive st' /\ (id ∉ processed st') /\
     failed st' = failed st /\ all_ids st' = all_ids st /\
     queue st' = queue st /\ missing_queue st' = missing_queue st) /\
    (let st' := markProcessed id st in
     processed st' = {[id]} ∪ processed st /\
     failed st' = failed st /\
     verified_inactive st' = verified_inactive st) /\
    (forall error,
     let st' := markFailed id error st in
     failed st' = {[id]} ∪ failed st /\
     processed st' = processed st /\
     verified_inactive st' = verified_inactive st).
Proof.
  intros id st. split; [| split].
  - cbn. split; [done |]. split; [done |]. split; [set_solver |].
    split; [| done]. rewrite elem_of_difference, elem_of_singleton. tauto.
  - cbn. done.
  - intros error. cbn zeta. unfold markFailed.
    destruct error as [e |]; [destruct (String.eqb e EmptyString) |]; done.
Qed.

(** ** Adaptive scheduler *)

Lemma gt_Finite q c : gt (Finite q) c = true <-> (c < q)%Q.
Proof.
  unfold gt. rewrite negb_true_iff, <- not_true_iff_false, Qle_bool_iff.
  split; [apply Qnot_le_lt | apply Qlt_not_le].
Qed.

Lemma gt_Finite_false q c : gt (Finite q) c = false <-> (q <= c)%Q.
Proof.
  unfold gt. rewrite negb_false_iff. apply Qle_bool_iff.
Qed.

Lemma upsertArea_row now areaName areaType stats hours db :
  exists row,
    upsertArea now areaName areaType stats hours db !! areaName = Some row /\
    change_rate row = changeRate stats /\
    scrape_interval_hours row = hours /\
    last_scraped row = Some now /\
    next_scrape row = Some (now + hoursMs hours).
Proof.
  unfold upsertArea. destruct (db !! areaName) as [old |];
    eexists; rewrite lookup_insert_eq; (split; [reflexivity |]); done.
Qed.

(** The server accepts a statement only if no parameter is used at two
    different types. *)
Lemma deduceParamTypes_known uses types n t t' :
  types !! n = Some t -> (n, t') ∈ uses -> t <> t' ->
  deduceParamTypes uses types = None.
Proof.
  revert types. induction uses as [| [m u] rest IH]; intros types Hn Hin Hne.
  - by apply elem_of_nil in Hin.
  - cbn [deduceParamTypes]. apply elem_of_cons in Hin as [Heq | Hin].
    + injection Heq as <- <-. rewrite Hn. by rewrite decide_False.
    + destruct (types !! m) as [u' |] eqn:Hm.
      * destruct (decide (u' = u)); [by apply IH | done].
      * apply IH; [| done | done].
        destruct (decide (m = n)) as [-> | Hmn]; [congruence |].
        by rewrite lookup_insert_ne.
Qed.

Lemma deduceParamTypes_conflict before n t t' after types :
  types !! n = None -> t <> t' -> (n, t') ∈ after ->
  deduceParamTypes (before ++ (n, t) :: after) types = None.
Proof.
  revert types. induction before as [| [m u] rest IH]; intros types Hn Hne Hin.
  - cbn [app deduceParamTypes]. rewrite Hn.
    apply (deduceParamTypes_known after _ n t t'); [| done | done].
    by rewrite lookup_insert_eq.
  - cbn [app deduceParamTypes]. destruct (types !! m) as [u' |] eqn:Hm.
    + destruct (decide (u' = u)); [by apply IH | done].
    + destruct (decide (m = n)) as [-> | Hmn].
      * destruct (decide (u = t')) as [-> | Hu].
        -- apply (deduceParamTypes_known _ _ n t' t);
             [by rewrite lookup_insert_eq | | done].
           apply elem_of_app. right. by left.
        -- apply (deduceParamTypes_known _ _ n u t');
             [by rewrite lookup_insert_eq | | done].
           apply elem_of_app. right. by right.
      * apply IH; [| done | done]. by rewrite lookup_insert_ne.
Qed.

(** The tiers, as the code computes them.  The interval is chosen by strict
    comparisons, first match first: a change rate above 0.20 gives 2 hours,
    above 0.10 gives 4, above 0.05 gives 6, above 0.02 gives 12, anything
    else (a NaN rate included) 24.  A rate equal to the threshold 0.10 gets
    6 hours; 0.25 gets 2, 0.03 gets 12 and 0 gets 24. *)
Theorem scrapeIntervalHours_tiers :
  (forall q : Q,
      ((lit_0_20 < q)%Q -> scrapeIntervalHours (Finite q) = 2) /\
      ((lit_0_10 < q)%Q -> (q <= lit_0_20)%Q -> scrapeIntervalHours (Finite q) = 4) /\
      ((lit_0_05 < q)%Q -> (q <= lit_0_10)%Q -> scrapeIntervalHours (Finite q) = 6) /\
      ((lit_0_02 < q)%Q -> (q <= lit_0_05)%Q -> scrapeIntervalHours (Finite q) = 12) /\
      ((q <= lit_0_02)%Q -> scrapeIntervalHours (Finite q) = 24)) /\
  (scrapeIntervalHours (Finite lit_0_10) = 6 /\
   scrapeIntervalHours (Finite (1 # 10)) = 6 /\
   scrapeIntervalHours (Finite (1 # 4)) = 2 /\
   scrapeIntervalHours (Finite (3 # 100)) = 12 /\
   scrapeIntervalHours (Finite 0) = 24 /\
   scrapeIntervalHours NaN = 24).
Proof.
  split.
  - intros q. unfold scrapeIntervalHours.
    assert (lit_0_10 <= lit_0_20)%Q as H12 by (by vm_compute).
    assert (lit_0_05 <= lit_0_10)%Q as H23 by (by vm_compute).
    assert (lit_0_02 <= lit_0_05)%Q as H34 by (by vm_compute).
    assert (forall a b c : Q, (a <= b)%Q -> (b <= c)%Q -> (a <= c)%Q) as tr
      by (intros a b c; apply Qle_trans).
    repeat split.
    + intros H. by apply gt_Finite in H as ->.
    + intros H1 H2. apply gt_Finite in H1 as ->.
      by apply gt_Finite_false in H2 as ->.
    + intros H1 H2. apply gt_Finite in H1 as ->.
      assert (gt (Finite q) lit_0_20 = false) as ->
        by (apply gt_Finite_false; eauto).
      by apply gt_Finite_false in H2 as ->.
    + intros H1 H2. apply gt_Finite in H1 as ->.
      assert (gt (Finite q) lit_0_20 = false) as ->
        by (apply gt_Finite_false; eauto).
      assert (gt (Finite q) lit_0_10 = false) as ->
        by (apply gt_Finite_false; eauto).
      by apply gt_Finite_false in H2 as ->.
    + intros H.
      assert (gt (Finite q) lit_0_20 = false) as ->
        by (apply gt_Finite_false; eauto 6).
      assert (gt (Finite q) lit_0_10 = false) as ->
        by (apply gt_Finite_false; eauto).
      assert (gt (Finite q) lit_0_05 = false) as ->
        by (apply gt_Finite_false; eauto).
      by apply gt_Finite_false in H as ->.
  - repeat split; by vm_compute.
Qed.

Lemma scrapeIntervalHours_tiers_witness :
  ((lit_0_20 < 1 # 4)%Q /\ scrapeIntervalHours (Finite (1 # 4)) = 2) /\
  ((lit_0_10 < 3 # 20)%Q /\ (3 # 20 <= lit_0_20)%Q /\
   scrapeIntervalHours (Finite (3 # 20)) = 4) /\
  ((lit_0_05 < lit_0_10)%Q /\ (lit_0_10 <= lit_0_10)%Q /\
   scrapeIntervalHours (Finite lit_0_10) = 6) /\
  ((lit_0_02 < 3 # 100)%Q /\ (3 # 100 <= lit_0_05)%Q /\
   scrapeIntervalHours (Finite (3 # 100)) = 12) /\
  ((0 <= lit_0_02)%Q /\ scrapeIntervalHours (Finite 0) = 24).
Proof.
  split; [| split; [| split; [| split]]].
  - split; [reflexivity |].
    apply (proj1 (proj1 scrapeIntervalHours_tiers (1 # 4))). reflexivity.
  - split; [reflexivity |]. split; [discriminate |].
    apply (proj1 (proj2 (proj1 scrapeIntervalHours_tiers (3 # 20))));
      [reflexivity | discriminate].
  - split; [reflexivity |]. split; [discriminate |].
    apply (proj1 (proj2 (proj2 (proj1 scrapeIntervalHours_tiers lit_0_10))));
      [reflexivity | discriminate].
  - split; [reflexivity |]. split; [discriminate |].
    apply (proj1 (proj2 (proj2 (proj2 (proj1 scrapeIntervalHours_tiers (3 # 100))))));
      [reflexivity | discriminate].
  - split; [discriminate |].
    apply (proj2 (proj2 (proj2 (proj2 (proj1 scrapeIntervalHours_tiers 0%Q))))).
    discriminate.
Defined.

(** C7 (next-due part, evaluated on the code): the next-due time is not
    stored.  The INSERT of [updateAreaStats]
    uses its fourth parameter both as the value of the INTEGER column
    scrape_interval_hours and as the text operand of [$4 || ' hours'], so
    the server refuses the statement for every input: the call throws and
    the table is as before.  For the region update of "Toronto" with change
    rate 0.25 the interval chosen is 2 hours, and no row with a next-due
    time exists afterwards.  Had the statement been accepted, the row would
    carry the chosen interval and next-due = now + interval. *)
Theorem updateAreaStats_refused :
  ((4%nat, SqlInteger) ∈ updateAreaStats_params /\
   (4%nat, SqlText) ∈ updateAreaStats_params) /\
  (forall now areaName areaType stats db,
      updateAreaStats now areaName areaType stats db = (Threw, db)) /\
  (let stats := {| changeRate := Finite (1 # 4); totalProperties := 100;
                   activeProperties := 90;
                   avgChangesPerScrape := Finite (5 # 2) |} in
   let r := updateAreaStats 1700000000000 "Toronto" City stats ∅ in
   scrapeIntervalHours (changeRate stats) = 2 /\
   r.1 = Threw /\ r.2 !! "Toronto" = None) /\
  (forall now areaName areaType stats db,
      exists row,
        upsertArea now areaName areaType stats
          (scrapeIntervalHours (changeRate stats)) db !! areaName = Some row /\
        scrape_interval_hours row = scrapeIntervalHours (changeRate stats) /\
        last_scraped row = Some now /\
        next_scrape row =
          Some (now + scrapeIntervalHours (changeRate stats) * 3600000)).
Proof.
  assert (deduceParamTypes updateAreaStats_params ∅ = None) as Hrefused.
  { apply (deduceParamTypes_conflict
             [(1%nat, SqlText); (2%nat, SqlText); (3%nat, SqlNumeric)]
             4%nat SqlInteger SqlText); [done | done |]. by left. }
  split; [| split; [| split]].
  - split; unfold updateAreaStats_params; set_solver.
  - intros now areaName areaType stats db. unfold updateAreaStats.
    by rewrite Hrefused.
  - cbn zeta. unfold updateAreaStats. rewrite Hrefused. cbn [fst snd].
    split; [by vm_compute |]. split; [done |]. apply lookup_empty.
  - intros now areaName areaType stats db.
    destruct (upsertArea_row now areaName areaType stats
                (scrapeIntervalHours (changeRate stats)) db)
      as (row & Hrow & _ & Hint & Hlast & Hnext).
    exists row. by rewrite Hrow, Hint, Hlast, Hnext.
Qed.

(** ** Inspection worker *)

Section WorkerFacts.

Context {StandardProperty : Type}.
Variable transformToStandard : Property -> StandardProperty.
Variable fetch : string -> Outcome (option Property).
Variables (cfg : SinkConfig) (now : Z) (id : string).
Variable w : Worker (StandardProperty := StandardProperty).

Let run := processListingWith transformToStandard fetch cfg now id w.

Lemma processListing_skip :
  isProcessed id (w_queue w) = true -> run = (true, w).
Proof. unfold run, processListingWith. by intros ->. Qed.

Lemma processListing_unchanged p :
  isProcessed id (w_queue w) = false ->
  fetch id = Returned (Some p) ->
  (hasPropertyChanged id p (w_queue w)).1 = false ->
  run.1 = true /\
  w_fetches run.2 = S (w_fetches w) /\
  w_sent run.2 = w_sent w /\
  w_queue run.2 = markProcessed id (w_queue w) /\
  processedCount run.2 = S (processedCount w) /\
  unchangedCount run.2 = S (unchangedCount w) /\
  changedCount run.2 = changedCount w.
Proof.
  intros Hnp Hf Hch. unfold run, processListingWith. rewrite Hnp, Hf.
  cbn [w_queue]. destruct (hasPropertyChanged id p (w_queue w)) as [b p1].
  cbn in Hch. subst b. done.
Qed.

Lemma processListing_changed p :
  isProcessed id (w_queue w) = false ->
  fetch id = Returned (Some p) ->
  (hasPropertyChanged id p (w_queue w)).1 = true ->
  apiKey cfg = false \/ sinkAccepts cfg = true ->
  let p1 := (hasPropertyChanged id p (w_queue w)).2 in
  run.1 = true /\
  w_fetches run.2 = S (w_fetches w) /\
  w_sent run.2 =
    (if apiKey cfg
     then w_sent w ++ [{| portal_id := id; data := transformToStandard p1;
                          raw_data := p1 |}]
     else w_sent w) /\
  w_queue run.2 =
    markProcessed id (storePropertySnapshot now id p1 (w_queue w)).1 /\
  processedCount run.2 = S (processedCount w) /\
  changedCount run.2 = S (changedCount w) /\
  unchangedCount run.2 = unchangedCount w.
Proof.
  intros Hnp Hf Hch Hsink. cbn zeta. unfold run, processListingWith.
  rewrite Hnp, Hf. cbn [w_queue].
  destruct (hasPropertyChanged id p (w_queue w)) as [b p1].
  cbn in Hch. subst b. cbn [negb fst snd]. unfold sendToCoreService.
  destruct (apiKey cfg); cbn; [| done].
  destruct Hsink as [H | ->]; done.
Qed.

(** When the sink rejects the record the catch block runs instead: the
    payload has been POSTed, but no snapshot is stored, the identifier is
    not marked processed, and the retry logic decides. *)
Lemma processListing_sink_failure p :
  isProcessed id (w_queue w) = false ->
  fetch id = Returned (Some p) ->
  (hasPropertyChanged id p (w_queue w)).1 = true ->
  apiKey cfg = true -> sinkAccepts cfg = false ->
  let p1 := (hasPropertyChanged id p (w_queue w)).2 in
  run.1 = false /\
  w_sent run.2 =
    w_sent w ++ [{| portal_id := id; data := transformToStandard p1;
                    raw_data := p1 |}] /\
  w_queue run.2 = (requeueWithRetry id 3 (w_queue w)).2.
Proof.
  intros Hnp Hf Hch Hkey Hrej. cbn zeta. unfold run, processListingWith.
  rewrite Hnp, Hf. cbn [w_queue].
  destruct (hasPropertyChanged id p (w_queue w)) as [b p1].
  cbn in Hch. subst b. cbn [negb fst snd]. unfold sendToCoreService.
  rewrite Hkey, Hrej. cbn [negb]. unfold processListingCatch.
  cbn [w_queue w_sent].
  by destruct (requeueWithRetry id 3 (w_queue w)).
Qed.

End WorkerFacts.

Lemma hasPropertyChanged_arg_importantData id p st :
  importantData (hasPropertyChanged id p st).2 = importantData p.
Proof.
  unfold hasPropertyChanged. destruct (getPropertySnapshot id st); [| done].
  cbn [snd calculatePropertyChecksum]. apply importantData_sortedInPlace.
Qed.

Lemma hasPropertyChanged_arg_checksum id p st :
  (calculatePropertyChecksum (hasPropertyChanged id p st).2).1
  = (calculatePropertyChecksum p).1.
Proof.
  unfold hasPropertyChanged. destruct (getPropertySnapshot id st); [| done].
  cbn [snd calculatePropertyChecksum]. apply checksum_sortedInPlace.
Qed.

(** C8: [processListing] on an identifier of the processed set returns at
    once: no fetch, no comparison, no change of any state.  Otherwise, with
    the listing fetched: when the comparison reports no change, nothing is
    sent, the only store change is the identifier entering the processed set
    (the snapshot stays as it was) and the unchanged counter goes up; when
    it reports a change and the sink call does not fail, the normalized
    record is sent exactly when credentials are configured, the snapshot of
    the identifier is overwritten with the listing's checksum, the
    identifier enters the processed set and the changed counter goes up. *)
Theorem processListing_outcomes :
  forall (StandardProperty : Type)
         (transformToStandard : Property -> StandardProperty)
         (fetch : string -> Outcome (option Property))
         (cfg : SinkConfig) (now : Z) (id : string)
         (w : Worker (StandardProperty := StandardProperty)),
    let r := processListingWith transformToStandard fetch cfg now id w in
    (isProcessed id (w_queue w) = true -> r = (true, w)) /\
    (forall p,
        isProcessed id (w_queue w) = false ->
        fetch id = Returned (Some p) ->
        (hasPropertyChanged id p (w_queue w)).1 = false ->
        r.1 = true /\
        w_sent r.2 = w_sent w /\
        snapshots (w_queue r.2) = snapshots (w_queue w) /\
        w_queue r.2 = markProcessed id (w_queue w) /\
        isProcessed id (w_queue r.2) = true /\
        unchangedCount r.2 = S (unchangedCount w)) /\
    (forall p,
        isProcessed id (w_queue w) = false ->
        fetch id = Returned (Some p) ->
        (hasPropertyChanged id p (w_queue w)).1 = true ->
        apiKey cfg = false \/ sinkAccepts cfg = true ->
        r.1 = true /\
        (let raw := (hasPropertyChanged id p (w_queue w)).2 in
         importantData raw = importantData p /\
         (apiKey cfg = true ->
            w_sent r.2 = w_sent w ++
              [{| portal_id := id; data := transformToStandard raw;
                  raw_data := raw |}])) /\
        (apiKey cfg = false -> w_sent r.2 = w_sent w) /\
        (exists snap,
            getPropertySnapshot id (w_queue r.2) = Some snap /\
            checksum snap = (calculatePropertyChecksum p).1 /\
            updated_at snap = now) /\
        isProcessed id (w_queue r.2) = true /\
        changedCount r.2 = S (changedCount w)).
Proof.
  intros T tr fetch cfg now id w. cbn zeta. split; [| split].
  - apply processListing_skip.
  - intros p Hnp Hf Hch.
    destruct (processListing_unchanged tr fetch cfg now id w p Hnp Hf Hch)
      as (H1 & _ & H3 & H4 & _ & H6 & _).
    rewrite H4. repeat split; try done.
    unfold isProcessed, markProcessed; cbn. apply bool_decide_eq_true.
      apply elem_of_union; left; by apply elem_of_singleton.
  - intros p Hnp Hf Hch Hsink.
    destruct (processListing_changed tr fetch cfg now id w p Hnp Hf Hch Hsink)
      as (H1 & _ & H3 & H4 & _ & H6 & _).
    rewrite H4, H3. split; [done |].
    split; [split; [apply hasPropertyChanged_arg_importantData | by intros ->] |].
    split; [by intros -> |].
    split; [| split; [| done]].
    + eexists. split.
      * unfold markProcessed, getPropertySnapshot; cbn [snapshots set_processed].
        apply storePropertySnapshot_lookup.
      * cbn [checksum updated_at]. split; [| done].
        apply hasPropertyChanged_arg_checksum.
    + unfold isProcessed, markProcessed; cbn. apply bool_decide_eq_true.
      apply elem_of_union; left; by apply elem_of_singleton.
Qed.

Lemma processListing_outcomes_witness :
  let cfg := {| apiKey := true; sinkAccepts := true |} in
  let w : Worker (StandardProperty := unit) := newWorker empty_store in
  let r := processListingWith (fun _ => tt) (fetchAlways sampleListing)
             cfg 1700000000000 "X1" w in
  let r' := processListingWith (fun _ => tt) (fetchAlways sampleListing)
              cfg 1700000003000 "X1" r.2 in
  (isProcessed "X1" (w_queue w) = false /\
   (hasPropertyChanged "X1" sampleListing (w_queue w)).1 = true /\
   (apiKey cfg = false \/ sinkAccepts cfg = true) /\
   r.1 = true /\ isProcessed "X1" (w_queue r.2) = true /\
   changedCount r.2 = 1%nat) /\
  (isProcessed "X1" (w_queue r.2) = true /\ r' = (true, r.2)).
Proof.
  cbn zeta.
  pose proof (processListing_outcomes unit (fun _ => tt)
                (fetchAlways sampleListing)
                {| apiKey := true; sinkAccepts := true |}) as H.
  destruct (proj2 (proj2 (H 1700000000000 "X1" (newWorker empty_store)))
              sampleListing)
    as (H1 & _ & _ & _ & H5 & H6);
    [reflexivity | reflexivity | reflexivity | right; reflexivity |].
  split.
  - split; [reflexivity |]. split; [reflexivity |].
    split; [right; reflexivity |].
    split; [exact H1 |]. split; [exact H5 | exact H6].
  - split; [exact H5 |]. apply (proj1 (H 1700000003000 "X1" _)). exact H5.
Defined.

(** The worker as the repository has it: its [fetchPropertyDetail] makes no
    request and returns only the identifier fields, so a first inspection
    stores the checksum of the all-defaults canonical record and a later
    inspection of the same identifier, once it is no longer in the processed
    set, finds no change. *)
Example processListing_with_repository_fetcher :
  let cfg := {| apiKey := false; sinkAccepts := true |} in
  let w : Worker (StandardProperty := unit) := newWorker empty_store in
  let r := processListing (fun _ => tt) cfg 1700000000000 "X1" w in
  let w2 := with_queue (set_processed ∅ (w_queue r.2)) r.2 in
  let r2 := processListing (fun _ => tt) cfg 1700000003000 "X1" w2 in
  r.1 = true /\ changedCount r.2 = 1%nat /\ w_sent r.2 = [] /\
  checksum <$> getPropertySnapshot "X1" (w_queue r.2) = Some "-1093968005" /\
  r2.1 = true /\ unchangedCount r2.2 = 1%nat /\ changedCount r2.2 = 1%nat.
Proof. cbn zeta. repeat split; by vm_compute. Qed.

(** * Further properties *)

Set Warnings "-clear-no-such-hyp".

(** ** Batched push *)

Lemma set_queue_id st : set_queue (queue st) st = st.
Proof. by destruct st. Qed.

Lemma refreshLastSeen_lookup now ids m x :
  refreshLastSeen now ids m !! x = if decide (x ∈ ids) then Some now else m !! x.
Proof.
  revert m. induction ids as [| id ids IH]; intros m; [done |].
  cbn [refreshLastSeen fold_left]. fold (refreshLastSeen now ids (<[id:=now]> m)).
  rewrite IH. destruct (decide (x ∈ ids)) as [Hin | Hnin].
  - rewrite decide_True; [done | by right].
  - destruct (decide (x = id)) as [-> | Hne].
    + rewrite decide_True; [| by left]. by rewrite lookup_insert_eq.
    + rewrite decide_False; [by rewrite lookup_insert_ne |].
      intros [-> | H]%elem_of_cons; done.
Qed.

Lemma newIdsOf_app seen a b :
  newIdsOf seen (a ++ b) = newIdsOf seen a ++ newIdsOf (list_to_set a ∪ seen) b.
Proof.
  revert seen. induction a as [| x a IH]; intros seen.
  - cbn. f_equal. set_solver.
  - cbn [app newIdsOf]. destruct (decide (x ∈ seen)) as [Hin | Hnin].
    + rewrite IH. do 2 f_equal. set_solver.
    + rewrite IH. cbn. do 3 f_equal. set_solver.
Qed.

Lemma newIdsOf_elem seen ids x :
  x ∈ newIdsOf seen ids <-> x ∈ ids /\ x ∉ seen.
Proof.
  revert seen. induction ids as [| id ids IH]; intros seen; cbn [newIdsOf].
  - set_solver.
  - destruct (decide (id ∈ seen)) as [Hin | Hnin].
    + rewrite IH. set_solver.
    + rewrite elem_of_cons, IH. destruct (decide (x = id)); set_solver.
Qed.

Lemma newIdsOf_NoDup seen ids : NoDup (newIdsOf seen ids).
Proof.
  revert seen. induction ids as [| id ids IH]; intros seen; cbn [newIdsOf].
  - constructor.
  - destruct (decide (id ∈ seen)); [apply IH |].
    constructor; [| apply IH]. rewrite newIdsOf_elem. set_solver.
Qed.

Lemma newIdsOf_sublist seen ids : newIdsOf seen ids `sublist_of` ids.
Proof.
  revert seen. induction ids as [| id ids IH]; intros seen; cbn [newIdsOf].
  - done.
  - destruct (decide (id ∈ seen)).
    + by apply sublist_cons.
    + by apply sublist_skip.
Qed.

Lemma newIdsOf_all_new seen ids :
  NoDup ids -> (forall x, x ∈ ids -> x ∉ seen) -> newIdsOf seen ids = ids.
Proof.
  revert seen. induction ids as [| id ids IH]; intros seen Hnd Hnew; [done |].
  cbn [newIdsOf]. apply NoDup_cons in Hnd as [Hid Hnd].
  rewrite decide_False by (apply Hnew; by left). f_equal.
  apply IH; [done |]. intros x Hx.
  assert (x ∉ seen) by (apply Hnew; by right). set_solver.
Qed.

Lemma newIdsOf_size seen ids :
  size (list_to_set ids ∪ seen : gset string)
  = (size seen + length (newIdsOf seen ids))%nat.
Proof.
  revert seen. induction ids as [| id ids IH]; intros seen; cbn [newIdsOf].
  - cbn. rewrite Nat.add_0_r. f_equal. set_solver.
  - destruct (decide (id ∈ seen)) as [Hin | Hnin].
    + rewrite <- IH. f_equal. set_solver.
    + assert (list_to_set (id :: ids) ∪ seen
              = (list_to_set ids ∪ ({[id]} ∪ seen) : gset string)) as ->
        by set_solver.
      rewrite IH, size_union by set_solver. rewrite size_singleton. cbn. lia.
Qed.

Lemma pushBatchPipeline_spec now batch st :
  pushBatchPipeline now batch st =
    (newIdsOf (all_ids st) batch,
     set_last_seen (refreshLastSeen now batch (last_seen st))
       (set_all_ids (list_to_set batch ∪ all_ids st) st)).
Proof.
  revert st. induction batch as [| id batch IH]; intros st.
  - cbn [pushBatchPipeline newIdsOf refreshLastSeen fold_left].
    assert (list_to_set [] ∪ all_ids st = all_ids st) as -> by set_solver.
    by destruct st.
  - cbn [pushBatchPipeline newIdsOf]. rewrite IH.
    cbn [all_ids last_seen set_last_seen set_all_ids].
    change (refreshLastSeen now batch (<[id:=now]> (last_seen st)))
      with (refreshLastSeen now (id :: batch) (last_seen st)).
    assert (list_to_set batch ∪ ({[id]} ∪ all_ids st)
            = (list_to_set (id :: batch) ∪ all_ids st : gset string)) as ->
      by set_solver.
    destruct (decide (id ∈ all_ids st)) as [Hin | Hnin].
    + rewrite bool_decide_eq_false_2 by (intros H; by apply H).
      assert ({[id]} ∪ all_ids st = all_ids st) as -> by set_solver.
      by destruct st.
    + rewrite bool_decide_eq_true_2 by done. by destruct st.
Qed.

(** What [pushListingIds] amounts to, whatever the batch size. *)
Lemma pushBatch_spec now batch n st :
  pushBatch now batch (n, st) =
    ((n + length (newIdsOf (all_ids st) batch))%nat,
     set_queue (rev (newIdsOf (all_ids st) batch) ++ queue st)
       (set_last_seen (refreshLastSeen now batch (last_seen st))
          (set_all_ids (list_to_set batch ∪ all_ids st) st))).
Proof.
  unfold pushBatch. rewrite pushBatchPipeline_spec.
  destruct (newIdsOf (all_ids st) batch) as [| x l] eqn:E; [| done].
  cbn. by rewrite Nat.add_0_r.
Qed.

Lemma pushBatches_spec now bs n st :
  fold_left (fun acc batch => pushBatch now batch acc) bs (n, st) =
    ((n + length (newIdsOf (all_ids st) (concat bs)))%nat,
     set_queue (rev (newIdsOf (all_ids st) (concat bs)) ++ queue st)
       (set_last_seen (refreshLastSeen now (concat bs) (last_seen st))
          (set_all_ids (list_to_set (concat bs) ∪ all_ids st) st))).
Proof.
  revert n st. induction bs as [| b bs IH]; intros n st.
  - cbn [fold_left concat newIdsOf refreshLastSeen length rev app].
    assert (list_to_set [] ∪ all_ids st = all_ids st) as -> by set_solver.
    rewrite Nat.add_0_r. by destruct st.
  - cbn [fold_left concat]. rewrite pushBatch_spec, IH. cbn.
    rewrite newIdsOf_app, length_app, rev_app_distr, <- app_assoc.
    unfold refreshLastSeen. rewrite fold_left_app.
    assert (list_to_set (concat bs) ∪ (list_to_set b ∪ all_ids st)
            = (list_to_set (b ++ concat bs) ∪ all_ids st : gset string)) as ->
      by set_solver.
    f_equal. lia.
Qed.

Lemma concat_batches fuel size ids :
  (0 < size)%nat -> (length ids <= fuel)%nat ->
  concat (batches fuel size ids) = ids.
Proof.
  intros Hsize. revert ids. induction fuel as [| fuel IH]; intros ids Hlen.
  - destruct ids; [done | cbn in Hlen; lia].
  - destruct ids as [| x ids]; [done |].
    cbn [batches concat]. rewrite IH; [apply take_drop |].
    rewrite length_drop. cbn [length] in *. lia.
Qed.

Lemma pushListingIds_spec now ids st :
  pushListingIds now ids st =
    (length (newIdsOf (all_ids st) ids),
     set_queue (rev (newIdsOf (all_ids st) ids) ++ queue st)
       (set_last_seen (refreshLastSeen now ids (last_seen st))
          (set_all_ids (list_to_set ids ∪ all_ids st) st))).
Proof.
  unfold pushListingIds. rewrite pushBatches_spec, concat_batches; [done | lia | done].
Qed.

(** X1: [pushListingIds] adds every listed identifier to the discovery set
    and sets its last-seen time to [now], whether it is new or not; it puts
    on the main lane, in list order, exactly the identifiers that were not
    in the discovery set, each once even when the list repeats it, and
    returns how many those are.  Nothing else in the store changes, and the
    result does not depend on where the 1000-element batches fall. *)
Theorem pushListingIds_contract :
  forall now ids st,
    let r := pushListingIds now ids st in
    exists newIds,
      r.1 = length newIds /\
      queue r.2 = rev newIds ++ queue st /\
      NoDup newIds /\
      newIds `sublist_of` ids /\
      (forall x, x ∈ newIds <-> x ∈ ids /\ x ∉ all_ids st) /\
      all_ids r.2 = list_to_set ids ∪ all_ids st /\
      (forall x, x ∈ ids -> getLastSeen x r.2 = Some now) /\
      (forall x, x ∉ ids -> getLastSeen x r.2 = getLastSeen x st) /\
      r.2 = set_queue (queue r.2)
              (set_last_seen (last_seen r.2) (set_all_ids (all_ids r.2) st)).
Proof.
  intros now ids st. cbn zeta. rewrite pushListingIds_spec. cbn [fst snd].
  exists (newIdsOf (all_ids st) ids).
  split; [done |]. split; [done |]. split; [apply newIdsOf_NoDup |].
  split; [apply newIdsOf_sublist |]. split; [apply newIdsOf_elem |].
  split; [done |]. unfold getLastSeen; cbn.
  split; [| split; [| done]].
  - intros x Hx. rewrite refreshLastSeen_lookup. by rewrite decide_True.
  - intros x Hx. rewrite refreshLastSeen_lookup. by rewrite decide_False.
Qed.

(** X2: the statistics follow the push: the discovery-set size and the lane
    depth reported by [getStats] both grow by exactly the number that
    [pushListingIds] returns, and the processed and failed counts stay. *)
Theorem pushListingIds_stats :
  forall now ids st,
    let r := pushListingIds now ids st in
    Stats.totalDiscovered (getStats r.2)
      = (Stats.totalDiscovered (getStats st) + r.1)%nat /\
    Stats.queueDepth (getStats r.2)
      = (Stats.queueDepth (getStats st) + r.1)%nat /\
    Stats.remaining (getStats r.2) = Stats.queueDepth (getStats r.2) /\
    Stats.processedCount (getStats r.2) = Stats.processedCount (getStats st) /\
    Stats.failedCount (getStats r.2) = Stats.failedCount (getStats st) /\
    Stats.startedAt (getStats r.2) = Stats.startedAt (getStats st).
Proof.
  intros now ids st. cbn zeta. rewrite pushListingIds_spec. cbn.
  rewrite newIdsOf_size, length_app, length_rev. repeat split; lia.
Qed.

(** ** The main lane is first in, first out *)

Lemma brpop_rev x l : brpop (rev (x :: l)) = Some (x, rev l).
Proof. unfold brpop. by rewrite rev_involutive. Qed.

Lemma popTimes_rev l st :
  queue st = rev l ->
  popTimes (length l) st = (map Some l, set_queue [] st).
Proof.
  revert st. induction l as [| x l IH]; intros st Hq.
  - cbn. cbn in Hq. rewrite <- Hq. by rewrite set_queue_id.
  - cbn [length popTimes]. unfold popListingId. rewrite Hq, brpop_rev.
    rewrite (IH (set_queue (rev l) st)) by done. done.
Qed.

(** X3: [popListingId] on an empty lane returns nothing and leaves the store
    as it is; popping as many times as the lane is deep returns its entries
    oldest first and empties it; so identifiers pushed as one new,
    duplicate-free list onto an empty lane are popped in list order. *)
Theorem popListingId_fifo :
  (forall st, queue st = [] -> popListingId st = (None, st)) /\
  (forall st,
      let r := popTimes (length (queue st)) st in
      r.1 = map Some (rev (queue st)) /\
      r.2 = set_queue [] st /\
      popListingId r.2 = (None, r.2)) /\
  (forall now ids st,
      queue st = [] -> NoDup ids -> (forall x, x ∈ ids -> x ∉ all_ids st) ->
      (popTimes (length ids) (pushListingIds now ids st).2).1 = map Some ids).
Proof.
  split; [| split].
  - intros st Hq. unfold popListingId. by rewrite Hq.
  - intros st. cbn zeta.
    rewrite <- (length_rev (queue st)).
    rewrite (popTimes_rev (rev (queue st)) st) by (by rewrite rev_involutive).
    done.
  - intros now ids st Hq Hnd Hnew. rewrite pushListingIds_spec. cbn [snd].
    rewrite (newIdsOf_all_new _ _ Hnd Hnew), Hq, app_nil_r.
    by rewrite popTimes_rev.
Qed.

Lemma popListingId_fifo_witness :
  queue empty_store = [] /\ NoDup ["A"; "B"; "C"] /\
  (popTimes 3 (pushListingIds 1700000000000 ["A"; "B"; "C"] empty_store).2).1
  = [Some "A"; Some "B"; Some "C"].
Proof.
  assert (NoDup ["A"; "B"; "C"]) as Hnd by (by apply (bool_decide_unpack _)).
  split; [reflexivity |]. split; [exact Hnd |].
  apply (proj2 (proj2 popListingId_fifo) 1700000000000 ["A"; "B"; "C"] empty_store);
    [reflexivity | exact Hnd |].
  intros x _. apply not_elem_of_empty.
Defined.

(** ** Retrying the failed identifiers *)

Lemma retryFailed_fold l st :
  fold_left retryFailedStep l st =
    set_retries (fold_left (fun m id => delete id m) l (retries st))
      (set_queue (rev l ++ queue st)
         (set_failed (failed st ∖ list_to_set l) st)).
Proof.
  revert st. induction l as [| x l IH]; intros st.
  - cbn [fold_left rev app].
    assert (failed st ∖ list_to_set [] = failed st) as -> by set_solver.
    by destruct st.
  - cbn [fold_left]. rewrite IH. unfold retryFailedStep.
    cbn [retries queue failed set_retries set_queue set_failed].
    assert (failed st ∖ {[x]} ∖ list_to_set l
            = (failed st ∖ list_to_set (x :: l) : gset string)) as ->
      by set_solver.
    cbn [rev]. rewrite <- app_assoc. by destruct st.
Qed.

Lemma delete_all_lookup (l : list string) (m : gmap string Z) x :
  fold_left (fun m id => delete id m) l m !! x
  = if decide (x ∈ l) then None else m !! x.
Proof.
  revert m. induction l as [| id l IH]; intros m; [done |].
  cbn [fold_left]. rewrite IH. destruct (decide (x ∈ l)) as [Hin | Hnin].
  - rewrite decide_True; [done | by right].
  - destruct (decide (x = id)) as [-> | Hne].
    + rewrite decide_True; [| by left]. by rewrite lookup_delete_eq.
    + rewrite decide_False; [by rewrite lookup_delete_ne |].
      intros [-> | H]%elem_of_cons; done.
Qed.

(** X4: [retryFailedListings] returns the size of the failed set, empties
    it, puts each failed identifier back on the main lane exactly once and
    deletes its retry counter (so its next [requeueWithRetry] with a limit of
    at least 1 succeeds again); counters of other identifiers, the processed
    set and the discovery set stay, and the recorded error messages are not
    removed. *)
Theorem retryFailedListings_effect :
  forall st,
    let r := retryFailedListings st in
    r.1 = size (failed st) /\
    failed r.2 = ∅ /\
    (exists pushed,
        queue r.2 = pushed ++ queue st /\ NoDup pushed /\
        forall id, id ∈ pushed <-> id ∈ failed st) /\
    (forall id, id ∈ failed st -> getRetryCount id r.2 = 0) /\
    (forall id, id ∉ failed st -> getRetryCount id r.2 = getRetryCount id st) /\
    (forall id maxRetries,
        id ∈ failed st -> 1 <= maxRetries ->
        (requeueWithRetry id maxRetries r.2).1 = true) /\
    failed_errors r.2 = failed_errors st /\
    processed r.2 = processed st /\ all_ids r.2 = all_ids st /\
    (failed st = ∅ -> r = (0%nat, st)).
Proof.
  intros st. cbn zeta. unfold retryFailedListings. rewrite retryFailed_fold.
  cbn [fst snd failed queue failed_errors processed all_ids
       set_retries set_queue set_failed].
  assert (forall id, id ∈ failed st ->
            getRetryCount id
              (set_retries
                 (fold_left (fun m id => delete id m) (elements (failed st))
                    (retries st))
                 (set_queue (rev (elements (failed st)) ++ queue st)
                    (set_failed (failed st ∖ list_to_set (elements (failed st))) st)))
            = 0) as Hzero.
  { intros id Hid. unfold getRetryCount; cbn [retries set_retries].
    rewrite delete_all_lookup, decide_True; [done |]. by apply elem_of_elements. }
  split; [done |]. split; [set_solver |].
  split.
  { exists (rev (elements (failed st))). split; [done |].
    split; [rewrite <- Permutation_rev; apply NoDup_elements |].
    intros id. by rewrite elem_of_rev, elem_of_elements. }
  split; [exact Hzero |].
  split.
  { intros id Hid. unfold getRetryCount; cbn [retries set_retries].
    rewrite delete_all_lookup, decide_False; [done |]. by rewrite elem_of_elements. }
  split.
  { intros id maxRetries Hid Hmax.
    match goal with |- (requeueWithRetry id maxRetries ?s).1 = true =>
      destruct (requeueWithRetry_step id maxRetries s) as (_ & Hok & _);
      specialize (Hzero id Hid) end.
    apply Hok. rewrite Hzero. lia. }
  split; [done |]. split; [done |]. split; [done |].
  intros Hempty. rewrite Hempty, elements_empty.
  cbn [fold_left rev app length]. f_equal.
  assert ((∅ : gset string) ∖ list_to_set [] = failed st) as ->
    by (rewrite Hempty; set_solver).
  by destruct st.
Qed.

Lemma retryFailedListings_effect_witness :
  let st := (requeueWithRetry "A" 0 empty_store).2 in
  "A" ∈ failed st /\ 1 <= 3 /\
  (requeueWithRetry "A" 3 (retryFailedListings st).2).1 = true.
Proof.
  cbn zeta.
  assert ("A" ∈ failed (requeueWithRetry "A" 0 empty_store).2) as Hin
    by (by apply elem_of_union_l, elem_of_singleton_2).
  split; [exact Hin |]. split; [discriminate |].
  destruct (retryFailedListings_effect (requeueWithRetry "A" 0 empty_store).2)
    as (_ & _ & _ & _ & _ & H & _).
  apply H; [exact Hin | discriminate].
Defined.

(** ** Clearing the queue *)

(** X5: [clear] deletes the lane, the discovery, processed and failed sets,
    the retry counters and the start time, so the statistics read zero and a
    duplicate-free list pushed afterwards is queued in full; it does not
    delete the snapshots, the last-seen times, the missing lane, the
    verified-inactive set or the error messages, so change detection and the
    verified-inactive filter answer as before the clear. *)
Theorem clear_scope :
  forall st,
    let c := clear st in
    getStats c = Stats.mkQueueStats 0 0 0 0 0 None /\
    (forall id, getRetryCount id c = 0 /\ isProcessed id c = false) /\
    (forall now ids, NoDup ids ->
        (pushListingIds now ids c).1 = length ids /\
        queue (pushListingIds now ids c).2 = rev ids) /\
    (forall id p, hasPropertyChanged id p c = hasPropertyChanged id p st) /\
    (forall id, getLastSeen id c = getLastSeen id st) /\
    (forall ids, (pushToMissingQueue ids c).1 = (pushToMissingQueue ids st).1) /\
    missing_queue c = missing_queue st /\
    verified_inactive c = verified_inactive st /\
    failed_errors c = failed_errors st.
Proof.
  intros st. cbn zeta. split; [done |]. split; [done |].
  split; [| split; [done |]; split; [done |]; split; [| done]].
  - intros now ids Hnd. rewrite pushListingIds_spec. cbn [fst snd queue set_queue].
    rewrite newIdsOf_all_new; [by rewrite app_nil_r | done |].
    intros x _. cbn. apply not_elem_of_empty.
  - intros ids. by rewrite !pushToMissingQueue_spec.
Qed.

Lemma clear_scope_witness :
  NoDup ["A"; "B"] /\
  (pushListingIds 1700000000000 ["A"; "B"]
     (clear (pushListingIds 1600000000000 ["A"; "B"] empty_store).2)).1 = 2%nat.
Proof.
  assert (NoDup ["A"; "B"]) as Hnd by (by apply (bool_decide_unpack _)).
  split; [exact Hnd |].
  apply (proj1 (proj1 (proj2 (proj2 (clear_scope
           (pushListingIds 1600000000000 ["A"; "B"] empty_store).2)))
         1700000000000 ["A"; "B"] Hnd)).
Defined.

(** ** Start time *)

(** X6: [initialize] records the start time only when none is recorded: the
    first call on a fresh store sets it, and every later call, from whichever
    process and at whatever time, leaves the whole store unchanged. *)
Theorem initialize_once :
  (forall now st,
      started_at st = None ->
      Stats.startedAt (getStats (initialize now st)) = Some now /\
      initialize now st = set_started_at (Some now) st) /\
  (forall now later st,
      fold_left (fun s t => initialize t s) later (initialize now st)
      = initialize now st).
Proof.
  split.
  - intros now st Hnone. unfold initialize. by rewrite Hnone.
  - intros now later st.
    assert (exists t, started_at (initialize now st) = Some t) as [t Ht].
    { unfold initialize. destruct (started_at st) eqn:E; cbn; eauto. }
    revert Ht. generalize (initialize now st). clear.
    induction later as [| t' later IH]; intros s Ht; [done |].
    cbn [fold_left]. unfold initialize at 2. rewrite Ht. by apply IH.
Qed.

Lemma initialize_once_witness :
  started_at empty_store = None /\
  Stats.startedAt (getStats (initialize 1700000000000 empty_store))
  = Some 1700000000000.
Proof.
  split; [reflexivity |].
  apply (proj1 (proj1 initialize_once 1700000000000 empty_store eq_refl)).
Defined.

(** ** Sweep after discovery *)

Lemma recently_seen_not_missing now' hoursThreshold st id t :
  getLastSeen id st = Some t -> t <> 0 ->
  now' - hoursThreshold * hourMs <= t ->
  id ∉ findMissingProperties now' hoursThreshold st.
Proof.
  intros Hseen Hnz Hle. rewrite findMissingProperties_elem. intros [_ H].
  rewrite Hseen in H. unfold notSeenRecently, cutoffTime in H.
  rewrite orb_true_iff, Z.eqb_eq, Z.ltb_lt in H. unfold hourMs in Hle. lia.
Qed.

(** X7: an identifier that a discovery pass pushed at time [now] (new or
    already known), or whose last-seen time [updateLastSeen] set to [now],
    is not selected by a sweep run at a time [now'] with
    [now' - hoursThreshold] hours at or before [now]: what was just seen is
    never sent to verification.  ([now] is a real clock reading, not 0.) *)
Theorem seen_now_not_swept :
  forall now now' hoursThreshold id,
    now <> 0 ->
    now' - hoursThreshold * hourMs <= now ->
    (forall ids st,
        id ∈ ids ->
        (id ∉ findMissingProperties now' hoursThreshold
                (pushListingIds now ids st).2) /\
        (id ∉ missing_queue st ->
         id ∉ missing_queue
                (identifyMissingProperties now' hoursThreshold
                   (pushListingIds now ids st).2))) /\
    (forall st,
        id ∉ findMissingProperties now' hoursThreshold (updateLastSeen now id st)).
Proof.
  intros now now' h id Hnz Hle. split.
  - intros ids st Hin.
    assert (forall x, x ∈ ids -> getLastSeen x (pushListingIds now ids st).2 = Some now)
      as Hseen.
    { intros x Hx. rewrite pushListingIds_spec. unfold getLastSeen; cbn.
      rewrite refreshLastSeen_lookup. by rewrite decide_True. }
    assert (id ∉ findMissingProperties now' h (pushListingIds now ids st).2) as Hnot
      by (eapply recently_seen_not_missing; eauto).
    split; [done |]. intros Hq. rewrite identifyMissingProperties_spec. cbn [missing_queue set_missing_queue].
    rewrite elem_of_app, elem_of_rev, list_elem_of_filter.
    intros [[_ H] | H]; [done |].
    rewrite pushListingIds_spec in H. done.
  - intros st. eapply recently_seen_not_missing; [| done | done].
    unfold getLastSeen, updateLastSeen; cbn. apply lookup_insert_eq.
Qed.

Lemma seen_now_not_swept_witness :
  1700000000000 <> 0 /\
  1700000003000 - 24 * hourMs <= 1700000000000 /\
  "A" ∉ findMissingProperties 1700000003000 24
          (updateLastSeen 1700000000000 "A" (seenAt "A" 1600000000000)).
Proof.
  split; [discriminate |]. split; [discriminate |].
  apply (proj2 (seen_now_not_swept 1700000000000 1700000003000 24 "A"
                  ltac:(discriminate) ltac:(discriminate))).
Defined.

(** ** A verified-inactive identifier that returns

    [markVerifiedInactive] takes the identifier out of the processed set,
    but it stays in the discovery set: a later discovery push does not put
    it on the main lane, and the sweep drops it as verified-inactive. *)
Lemma verified_inactive_not_requeued now id ids st :
  id ∈ all_ids st ->
  let st' := markVerifiedInactive id st in
  isProcessed id st' = false /\
  isVerifiedInactive id st' = true /\
  pushListingId id st' = (false, st') /\
  (exists newIds,
      (pushListingIds now ids st').1 = length newIds /\
      queue (pushListingIds now ids st').2 = rev newIds ++ queue st /\
      id ∉ newIds) /\
  pushToMissingQueue [id] st' = (0%nat, st').
Proof.
  intros Hin. cbn zeta.
  assert (id ∈ all_ids (markVerifiedInactive id st)) as Hin' by done.
  split; [| split; [| split; [| split]]].
  - unfold isProcessed. apply bool_decide_eq_false. cbn. set_solver.
  - unfold isVerifiedInactive. apply bool_decide_eq_true. cbn. set_solver.
  - by apply pushListingId_dup.
  - rewrite pushListingIds_spec. eexists. split; [done |]. split; [done |].
    rewrite newIdsOf_elem. tauto.
  - cbn. rewrite decide_True by set_solver. done.
Qed.

Example verified_inactive_not_requeued_example :
  let discovered := (pushListingIds 1600000000000 ["A"] empty_store).2 in
  let st := markVerifiedInactive "A"
              (markProcessed "A" (popListingId discovered).2) in
  let r := pushListingIds 1700000000000 ["A"] st in
  r.1 = 0%nat /\
  queue r.2 = [] /\
  isProcessed "A" r.2 = false /\ isVerifiedInactive "A" r.2 = true.
Proof. cbn zeta. repeat split; by vm_compute. Qed.

(** ** The 32-bit hash *)

Lemma toInt32_range z : - 2 ^ 31 <= toInt32 z < 2 ^ 31.
Proof.
  unfold toInt32. pose proof (Z.mod_pos_bound (z + 2 ^ 31) (2 ^ 32)). lia.
Qed.

Lemma toInt32_congr a b :
  a mod 2 ^ 32 = b mod 2 ^ 32 -> toInt32 a = toInt32 b.
Proof.
  intros H. unfold toInt32.
  rewrite <- (Z.add_mod_idemp_l a), <- (Z.add_mod_idemp_l b) by lia.
  by rewrite H.
Qed.

Lemma toInt32_mod z : toInt32 z mod 2 ^ 32 = z mod 2 ^ 32.
Proof.
  unfold toInt32.
  rewrite <- Zminus_mod_idemp_l, Z.mod_mod by lia.
  rewrite Zminus_mod_idemp_l. f_equal. lia.
Qed.

Lemma toInt32_in_range z : - 2 ^ 31 <= z < 2 ^ 31 -> toInt32 z = z.
Proof. intros H. unfold toInt32. rewrite Z.mod_small; lia. Qed.

Lemma hashStep_31 h c : hashStep h c = toInt32 (31 * h + Z.of_N (N_of_ascii c)).
Proof.
  unfold hashStep. apply toInt32_congr.
  rewrite <- Z.add_mod_idemp_l, <- Zminus_mod_idemp_l, toInt32_mod by lia.
  rewrite Zminus_mod_idemp_l, Z.add_mod_idemp_l by lia. f_equal. lia.
Qed.

Lemma hashLoop_app a b h : hashLoop (a +:+ b) h = hashLoop b (hashLoop a h).
Proof.
  revert h. induction a as [| c a IH]; intros h; [done |].
  rewrite append_cons. cbn [hashLoop]. apply IH.
Qed.

Lemma hashLoop_range s h :
  - 2 ^ 31 <= h < 2 ^ 31 -> - 2 ^ 31 <= hashLoop s h < 2 ^ 31.
Proof.
  revert h. induction s as [| c s IH]; intros h Hh; [done |].
  cbn [hashLoop]. apply IH. rewrite hashStep_31. apply toInt32_range.
Qed.

Lemma polyHash_congr s a b :
  a mod 2 ^ 32 = b mod 2 ^ 32 ->
  polyHash s a mod 2 ^ 32 = polyHash s b mod 2 ^ 32.
Proof.
  revert a b. induction s as [| c s IH]; intros a b H; [done |].
  cbn [polyHash]. apply IH.
  rewrite <- (Z.add_mod_idemp_l (31 * a)), <- (Z.add_mod_idemp_l (31 * b)) by lia.
  rewrite <- (Z.mul_mod_idemp_r 31 a), <- (Z.mul_mod_idemp_r 31 b) by lia.
  by rewrite H.
Qed.

Lemma hashLoop_polyHash s h :
  hashLoop s h mod 2 ^ 32 = polyHash s h mod 2 ^ 32.
Proof.
  revert h. induction s as [| c s IH]; intros h; [done |].
  cbn [hashLoop polyHash]. rewrite IH. apply polyHash_congr.
  rewrite hashStep_31. apply toInt32_mod.
Qed.

Lemma polyHash_linear s h :
  polyHash s h = 31 ^ Z.of_nat (String.length s) * h + polyHash s 0.
Proof.
  revert h. induction s as [| c s IH]; intros h.
  - cbn. lia.
  - cbn [polyHash String.length]. rewrite IH, (IH (31 * 0 + _)).
    rewrite Nat2Z.inj_succ, Z.pow_succ_r by lia. lia.
Qed.

Lemma hashLoop_same_length a b h :
  String.length a = String.length b ->
  - 2 ^ 31 <= h < 2 ^ 31 ->
  hashLoop a 0 = hashLoop b 0 -> hashLoop a h = hashLoop b h.
Proof.
  intros Hlen Hh H0.
  rewrite <- (toInt32_in_range (hashLoop a h)) by (by apply hashLoop_range).
  rewrite <- (toInt32_in_range (hashLoop b h)) by (by apply hashLoop_range).
  apply toInt32_congr. rewrite !hashLoop_polyHash.
  rewrite (polyHash_linear a), (polyHash_linear b), Hlen.
  rewrite <- (Z.add_mod_idemp_r _ (polyHash a 0)),
          <- (Z.add_mod_idemp_r _ (polyHash b 0)) by lia.
  by rewrite <- !hashLoop_polyHash, H0.
Qed.

(** X8: the checksum is the decimal print of a signed 32-bit integer, namely
    of the polynomial hash with multiplier 31 reduced modulo 2^32 (the
    shift-and-subtract step is a multiplication by 31); and when two strings
    of the same length have the same hash, every two texts that differ only
    in having one or the other at the same place have the same hash too. *)
Theorem hashString_polynomial :
  (forall s, - 2 ^ 31 <= hashLoop s 0 < 2 ^ 31) /\
  (forall s, hashLoop s 0 = toInt32 (polyHash s 0)) /\
  (forall h c, hashStep h c = toInt32 (31 * h + Z.of_N (N_of_ascii c))) /\
  (forall a b before after,
      String.length a = String.length b ->
      hashString a = hashString b ->
      hashString (before +:+ a +:+ after) = hashString (before +:+ b +:+ after)).
Proof.
  split; [| split; [| split]].
  - intros s. apply hashLoop_range. lia.
  - intros s. rewrite <- (toInt32_in_range (hashLoop s 0)) by (apply hashLoop_range; lia).
    apply toInt32_congr, hashLoop_polyHash.
  - apply hashStep_31.
  - intros a b p t Hlen Hh. unfold hashString in *. f_equal.
    apply (inj pretty) in Hh. rewrite !hashLoop_app. f_equal.
    apply hashLoop_same_length; [done | apply hashLoop_range; lia | done].
Qed.

Lemma hashString_polynomial_witness :
  String.length "Aa" = String.length "BB" /\
  hashString "Aa" = hashString "BB" /\
  hashString ("status:" +:+ "Aa" +:+ ";") = hashString ("status:" +:+ "BB" +:+ ";").
Proof.
  split; [reflexivity |]. split; [reflexivity |].
  apply (proj2 (proj2 (proj2 hashString_polynomial)) "Aa" "BB" "status:" ";");
    reflexivity.
Defined.

(** ** What the checksum does not see *)

Lemma importantData_salePrice_shadowed p v :
  Js.truthy (rent p) = true ->
  importantData (with_salePrice v p) = importantData p.
Proof.
  intros Hrent. unfold importantData, with_salePrice;
    cbn [rent salePrice price description visitStatus status imageList images
         amenities installations bedrooms bathrooms area address city].
  assert (forall x, Js.or (rent p) x = rent p) as Hor
    by (intros x; unfold Js.or; by rewrite Hrent).
  by rewrite !Hor.
Qed.

Lemma importantData_salePrice_falsy p v v' :
  Js.truthy v = false -> Js.truthy v' = false ->
  importantData (with_salePrice v p) = importantData (with_salePrice v' p).
Proof.
  intros Hv Hv'. unfold importantData, with_salePrice;
    cbn [rent salePrice price description visitStatus status imageList images
         amenities installations bedrooms bathrooms area address city].
  do 2 f_equal. unfold Js.or. destruct (Js.truthy (rent p)); [done |].
  by rewrite Hv, Hv'.
Qed.

(** X9: the canonical price is the first truthy one of rent, salePrice and
    price, else 0.  So while a listing has a truthy rent, no change of its
    salePrice is ever reported; and without one, a salePrice that is
    undefined, null, 0, false or the empty string is the same to the
    checksum as any other of these. *)
Theorem checksum_price_precedence :
  (forall now id p v st,
      Js.truthy (rent p) = true ->
      (hasPropertyChanged id (with_salePrice v p)
         (storePropertySnapshot now id p st).1).1 = false) /\
  (forall now id p v v' st,
      Js.truthy v = false -> Js.truthy v' = false ->
      (hasPropertyChanged id (with_salePrice v' p)
         (storePropertySnapshot now id (with_salePrice v p) st).1).1 = false).
Proof.
  split.
  - intros now id p v st Hrent. rewrite hasPropertyChanged_after_store.
    unfold calculatePropertyChecksum, dataString; cbn [fst].
    by rewrite (importantData_salePrice_shadowed _ _ Hrent), String.eqb_refl.
  - intros now id p v v' st Hv Hv'. rewrite hasPropertyChanged_after_store.
    unfold calculatePropertyChecksum, dataString; cbn [fst].
    by rewrite (importantData_salePrice_falsy _ _ _ Hv Hv'), String.eqb_refl.
Qed.

Lemma checksum_price_precedence_witness :
  let rented :=
    {| prop_id := Js.JsStr "X1"; MlsNumber := Js.JsStr "X1";
       rent := Js.JsNum 2100; salePrice := Js.JsNum 450000;
       price := Js.JsUndefined; description := Js.JsUndefined;
       visitStatus := Js.JsUndefined; status := Js.JsUndefined;
       imageList := None; images := None; amenities := None;
       installations := None; bedrooms := Js.JsUndefined;
       bathrooms := Js.JsUndefined; area := Js.JsUndefined;
       address := Js.JsUndefined; city := Js.JsUndefined |} in
  Js.truthy (rent rented) = true /\
  (hasPropertyChanged "X1" (with_salePrice (Js.JsNum 399000) rented)
     (storePropertySnapshot 1700000000000 "X1" rented empty_store).1).1 = false.
Proof.
  cbn zeta. split; [reflexivity |].
  apply (proj1 checksum_price_precedence). reflexivity.
Defined.

(** ** Snapshots are per identifier *)

(** X10: [storePropertySnapshot] for one identifier writes that
    identifier's snapshot and nothing else: the answer of
    [hasPropertyChanged] for every other identifier is what it was, the
    number of snapshots reported by [getChangeStats] goes up by one when the
    identifier had none and stays otherwise, and no other key changes. *)
Theorem storePropertySnapshot_frame :
  forall now id p st,
    let st' := (storePropertySnapshot now id p st).1 in
    (forall id' q, id' <> id ->
        hasPropertyChanged id' q st' = hasPropertyChanged id' q st) /\
    (getPropertySnapshot id st = None ->
       (getChangeStats st').1 = S (getChangeStats st).1) /\
    (is_Some (getPropertySnapshot id st) ->
       (getChangeStats st').1 = (getChangeStats st).1) /\
    st' = set_snapshots (snapshots st') st.
Proof.
  intros now id p st. cbn zeta.
  unfold storePropertySnapshot, calculatePropertyChecksum, getChangeStats,
    getPropertySnapshot. cbn [fst snd snapshots set_snapshots].
  split; [| split; [| split; [| done]]].
  - intros id' q Hne. unfold hasPropertyChanged, getPropertySnapshot.
    cbn [snapshots set_snapshots]. by rewrite lookup_insert_ne.
  - intros Hnone. by rewrite map_size_insert_None.
  - intros [s Hs]. by rewrite map_size_insert_Some.
Qed.

Lemma storePropertySnapshot_frame_witness :
  getPropertySnapshot "X1" empty_store = None /\
  (getChangeStats
     (storePropertySnapshot 1700000000000 "X1" sampleListing empty_store).1).1
  = 1%nat.
Proof.
  split; [reflexivity |].
  apply (proj1 (proj2 (storePropertySnapshot_frame 1700000000000 "X1"
                         sampleListing empty_store))).
  reflexivity.
Defined.

(** ** A collision in one field is a collision of the listing *)

Lemma dataString_status_split p :
  exists before after,
    forall s, String.eqb s EmptyString = false ->
      dataString (with_visitStatus (Js.JsStr s) p)
      = before +:+ quoteJSONBody s +:+ after.
Proof.
  pose proof (importantData_defined p) as Hd. unfold importantData in Hd.
  apply Forall_cons in Hd as [H1 Hd]. apply Forall_cons in Hd as [H2 Hd].
  apply Forall_cons in Hd as [_ Hd].
  destruct (stringifyVal_defined _ H1) as [x1 E1].
  destruct (stringifyVal_defined _ H2) as [x2 E2].
  cbn [snd] in E1, E2. clear H1 H2.
  match type of Hd with Forall defined ?l => set (rest := l) in * end.
  assert (exists r rs, omap stringifyProp rest = r :: rs) as (r & rs & Hrest).
  { subst rest. eexists _, _.
    by rewrite (omap_stringifyProp_cons "images" (Js.JsStr _) _ _ eq_refl). }
  clear Hd.
  exists ("{" +:+ (quoteJSONString "price" +:+ ":" +:+ x1) +:+ ","
          +:+ (quoteJSONString "description" +:+ ":" +:+ x2) +:+ ","
          +:+ quoteJSONString "status" +:+ ":" +:+ dquote),
         (dquote +:+ "," +:+ Js.join "," (r :: rs) +:+ "}").
  intros s Hs.
  assert (Js.or (Js.or (Js.JsStr s) (status p)) (Js.JsStr "unknown") = Js.JsStr s)
    as Hstatus.
  { assert (Js.truthy (Js.JsStr s) = true) as T by (cbn [Js.truthy]; by rewrite Hs).
    unfold Js.or. rewrite T. by rewrite T. }
  assert (omap stringifyProp (importantData (with_visitStatus (Js.JsStr s) p))
          = (quoteJSONString "price" +:+ ":" +:+ x1)
            :: (quoteJSONString "description" +:+ ":" +:+ x2)
            :: (quoteJSONString "status" +:+ ":" +:+ quoteJSONString s)
            :: r :: rs) as Homap.
  { unfold importantData, with_visitStatus;
      cbn [rent salePrice price description visitStatus status imageList images
           amenities installations bedrooms bathrooms area address city].
    rewrite Hstatus.
    rewrite (omap_stringifyProp_cons _ _ _ _ E1), (omap_stringifyProp_cons _ _ _ _ E2).
    rewrite (omap_stringifyProp_cons "status" (Js.JsStr s) (quoteJSONString s)) by done.
    fold rest. by rewrite Hrest. }
  unfold dataString, stringifyObject. rewrite Homap, !join_cons2.
  change (quoteJSONString s) with (dquote +:+ quoteJSONBody s +:+ dquote).
  generalize (Js.join "," (r :: rs)) (quoteJSONBody s) (quoteJSONString "status")
    (quoteJSONString "price" +:+ ":" +:+ x1)
    (quoteJSONString "description" +:+ ":" +:+ x2).
  intros j body k e1 e2. rewrite ?append_assoc.
  symmetry. rewrite ?append_assoc. reflexivity.
Qed.

(** X11: hash collisions do not depend on the rest of the listing: when two
    non-empty status strings have JSON bodies of the same length and the
    same hash, then for every listing, changing the status from one to
    the other is not reported as a change. *)
Theorem status_collision_any_listing :
  forall now id p s1 s2 st,
    String.eqb s1 EmptyString = false ->
    String.eqb s2 EmptyString = false ->
    String.length (quoteJSONBody s1) = String.length (quoteJSONBody s2) ->
    hashString (quoteJSONBody s1) = hashString (quoteJSONBody s2) ->
    (hasPropertyChanged id (with_visitStatus (Js.JsStr s2) p)
       (storePropertySnapshot now id (with_visitStatus (Js.JsStr s1) p) st).1).1
    = false.
Proof.
  intros now id p s1 s2 st H1 H2 Hlen Hhash.
  rewrite hasPropertyChanged_after_store.
  unfold calculatePropertyChecksum; cbn [fst].
  destruct (dataString_status_split p) as (before & after & Hsplit).
  rewrite (Hsplit s1 H1), (Hsplit s2 H2).
  unfold hashString in *. apply (inj pretty) in Hhash.
  rewrite !hashLoop_app.
  rewrite (hashLoop_same_length _ _ (hashLoop before 0) Hlen);
    [by rewrite String.eqb_refl | apply hashLoop_range; lia | done].
Qed.

Lemma status_collision_any_listing_witness :
  String.eqb "Aa" EmptyString = false /\
  String.eqb "BB" EmptyString = false /\
  String.length (quoteJSONBody "Aa") = String.length (quoteJSONBody "BB") /\
  hashString (quoteJSONBody "Aa") = hashString (quoteJSONBody "BB") /\
  (hasPropertyChanged "X1" (with_visitStatus (Js.JsStr "BB") sampleListing)
     (storePropertySnapshot 1700000000000 "X1"
        (with_visitStatus (Js.JsStr "Aa") sampleListing) empty_store).1).1
  = false.
Proof.
  split; [reflexivity |]. split; [reflexivity |]. split; [reflexivity |].
  split; [reflexivity |].
  apply status_collision_any_listing; reflexivity.
Defined.

(** ** The verifier *)

(** X12: whatever the portal answers, [processMissingProperty] never touches
    the main lane, the missing lane, the discovery set, the failed set, the
    retry counters or the snapshots: an identifier whose verification threw
    is simply gone from the missing lane until a later sweep finds it again.
    The call changes the last-seen time of no other identifier, adds no other
    identifier to the verified-inactive set, and counts one result (active
    or inactive) exactly when it returns true. *)
Theorem processMissingProperty_frame :
  forall cfg now fetch id v,
    let r := processMissingProperty cfg now fetch id v in
    queue (v_queue r.2) = queue (v_queue v) /\
    missing_queue (v_queue r.2) = missing_queue (v_queue v) /\
    all_ids (v_queue r.2) = all_ids (v_queue v) /\
    failed (v_queue r.2) = failed (v_queue v) /\
    retries (v_queue r.2) = retries (v_queue v) /\
    snapshots (v_queue r.2) = snapshots (v_queue v) /\
    (forall x, x <> id ->
        getLastSeen x (v_queue r.2) = getLastSeen x (v_queue v) /\
        (x ∈ verified_inactive (v_queue r.2) <-> x ∈ verified_inactive (v_queue v)) /\
        (x ∈ processed (v_queue r.2) <-> x ∈ processed (v_queue v))) /\
    (verifiedInactiveCount r.2 + foundActiveCount r.2
     = verifiedInactiveCount v + foundActiveCount v + (if r.1 then 1 else 0))%nat.
Proof.
  intros cfg now fetch id v. cbn zeta. unfold processMissingProperty.
  destruct (verifyProperty fetch) as [[] |]; cbn.
  - repeat split; try done; try lia.
    unfold getLastSeen; cbn. by rewrite lookup_insert_ne.
  - unfold markPropertyInactive.
    destruct (apiKey cfg); cbn; [destruct (sinkAccepts cfg); cbn |].
    all: repeat split; try done; try lia; set_solver.
  - repeat split; try done; lia.
Qed.





Lemma brpop_None l : brpop l = None -> l = [].
Proof.
  unfold brpop. destruct (rev l) as [| y r] eqn:E; [| done].
  intros _. apply (f_equal (@rev string)) in E. by rewrite rev_involutive in E.
Qed.







(** ** The inspection worker *)

Lemma requeueWithRetry_effect id maxRetries st :
  let r := requeueWithRetry id maxRetries st in
  getRetryCount id r.2 = getRetryCount id st + 1 /\
  (forall x, x <> id -> getRetryCount x r.2 = getRetryCount x st) /\
  processed r.2 = processed st /\
  failed st ⊆ failed r.2 /\
  (r.1 = true ->
     queue r.2 = id :: queue st /\ failed r.2 = failed st /\
     getRetryCount id r.2 <= maxRetries) /\
  (r.1 = false -> queue r.2 = queue st /\ id ∈ failed r.2) /\
  all_ids r.2 = all_ids st /\ last_seen r.2 = last_seen st /\
  missing_queue r.2 = missing_queue st /\
  verified_inactive r.2 = verified_inactive st /\
  snapshots r.2 = snapshots st.
Proof.
  cbn zeta. unfold requeueWithRetry, incrementRetry, getRetryCount.
  destruct (Z.leb_spec (default 0 (retries st !! id) + 1) maxRetries) as [Hle | Hgt].
  - cbn [fst snd retries set_retries set_queue queue processed failed all_ids
         last_seen missing_queue verified_inactive snapshots].
    rewrite lookup_insert_eq. cbn [default from_option Datatypes.id].
    split; [done |]. split; [by intros x Hx; rewrite lookup_insert_ne |].
    repeat split; try done.
  - unfold markFailed. rewrite maxRetriesMessage_nonempty.
    cbn [fst snd retries set_retries set_queue queue processed failed all_ids
         last_seen missing_queue verified_inactive snapshots set_failed
         set_failed_errors].
    rewrite lookup_insert_eq. cbn [default from_option Datatypes.id].
    split; [done |]. split; [by intros x Hx; rewrite lookup_insert_ne |].
    split; [done |]. split; [set_solver |]. split; [done |].
    split; [intros _; split; [done | set_solver] |]. done.
Qed.

Section WorkerLoopFacts.

Context {StandardProperty : Type}.
Variable transformToStandard : Property -> StandardProperty.

Lemma processListingCatch_effect id
    (w0 : Worker (StandardProperty := StandardProperty)) :
  let r := processListingCatch id w0 in
  r.1 = false /\
  w_queue r.2 = (requeueWithRetry id 3 (w_queue w0)).2 /\
  w_sent r.2 = w_sent w0 /\
  processedCount r.2 = processedCount w0 /\
  changedCount r.2 = changedCount w0 /\
  unchangedCount r.2 = unchangedCount w0 /\
  failedCount r.2 = (if (requeueWithRetry id 3 (w_queue w0)).1
                     then failedCount w0 else S (failedCount w0)).
Proof.
  cbn zeta. unfold processListingCatch.
  by destruct (requeueWithRetry id 3 (w_queue w0)) as [[] q].
Qed.

(** The ways [processListing] can end. *)
Lemma processListing_cases fetch cfg now id
    (w : Worker (StandardProperty := StandardProperty)) :
  let r := processListingWith transformToStandard fetch cfg now id w in
  (* skipped *)
  (isProcessed id (w_queue w) = true /\ r = (true, w)) \/
  (* caught *)
  (isProcessed id (w_queue w) = false /\
   r.1 = false /\
   w_queue r.2 = (requeueWithRetry id 3 (w_queue w)).2 /\
   ((fetch id = Threw /\ w_sent r.2 = w_sent w) \/
    (exists p,
        fetch id = Returned (Some p) /\
        (hasPropertyChanged id p (w_queue w)).1 = true /\
        apiKey cfg = true /\ sinkAccepts cfg = false /\
        let p1 := (hasPropertyChanged id p (w_queue w)).2 in
        w_sent r.2 =
          w_sent w ++ [{| portal_id := id; data := transformToStandard p1;
                          raw_data := p1 |}])) /\
   processedCount r.2 = processedCount w /\
   changedCount r.2 = changedCount w /\
   unchangedCount r.2 = unchangedCount w /\
   failedCount r.2 = (if (requeueWithRetry id 3 (w_queue w)).1
                      then failedCount w else S (failedCount w))) \/
  (* not found *)
  (isProcessed id (w_queue w) = false /\
   r.1 = false /\
   w_queue r.2 = markFailed id (Some "Not found") (w_queue w) /\
   w_sent r.2 = w_sent w /\
   processedCount r.2 = processedCount w /\
   changedCount r.2 = changedCount w /\
   unchangedCount r.2 = unchangedCount w /\
   failedCount r.2 = failedCount w /\
   fetch id = Returned None) \/
  (* inspected *)
  (isProcessed id (w_queue w) = false /\
   r.1 = true /\
   (exists q, w_queue r.2 = markProcessed id q /\
              (q = w_queue w \/
               exists p, q = (storePropertySnapshot now id p (w_queue w)).1)) /\
   (exists sent, w_sent r.2 = w_sent w ++ sent /\ (length sent <= 1)%nat) /\
   processedCount r.2 = S (processedCount w) /\
   (changedCount r.2 + unchangedCount r.2
    = S (changedCount w + unchangedCount w))%nat /\
   failedCount r.2 = failedCount w).
Proof.
  cbn zeta. unfold processListingWith.
  destruct (isProcessed id (w_queue w)) eqn:Hp; [by left |]. right.
  destruct (fetch id) as [[p |] |] eqn:Hfetch.
  - cbn [w_queue w_sent].
    destruct (hasPropertyChanged id p (w_queue w)) as [[] p1] eqn:Hhc;
      cbn [negb].
    + unfold sendToCoreService.
      destruct (apiKey cfg) eqn:Hkey; cbn [negb];
        [destruct (sinkAccepts cfg) eqn:Hacc |].
      * right; right. split; [done |]. cbn.
        split; [done |]. split; [eexists; split; [done | right; by eexists] |].
        split; [eexists [_]; split; [done | cbn; lia] |]. split; [done |].
        split; [lia | done].
      * left.
        match goal with |- context [processListingCatch id ?w1] =>
          destruct (processListingCatch_effect id w1)
            as (H1 & H2 & H3 & H4 & H5 & H6 & H7)
        end.
        cbn [w_queue w_sent processedCount changedCount unchangedCount
             failedCount] in H2, H3, H4, H5, H6, H7.
        split; [done |]. split; [done |]. split; [done |].
        split; [| done]. right. exists p. rewrite Hhc. cbn [fst snd].
        done.
      * right; right. split; [done |]. cbn.
        split; [done |]. split; [eexists; split; [done | right; by eexists] |].
        split; [exists []; split; [by rewrite app_nil_r | cbn; lia] |].
        split; [done |]. split; [lia | done].
    + right; right. split; [done |]. cbn.
      split; [done |]. split; [eexists; split; [done | by left] |].
      split; [exists []; split; [by rewrite app_nil_r | cbn; lia] |].
      split; [done |]. split; [lia | done].
  - right; left. by cbn.
  - left.
    match goal with |- context [processListingCatch id ?w1] =>
      destruct (processListingCatch_effect id w1)
        as (H1 & H2 & H3 & H4 & H5 & H6 & H7)
    end.
    cbn [w_queue w_sent processedCount changedCount unchangedCount
         failedCount] in H2, H3, H4, H5, H6, H7.
    split; [done |]. split; [done |]. split; [done |].
    split; [| done]. left. done.
Qed.

Lemma processListing_lane fetch cfg now id
    (w : Worker (StandardProperty := StandardProperty)) :
  let w' := (processListingWith transformToStandard fetch cfg now id w).2 in
  processed (w_queue w) ⊆ processed (w_queue w') /\
  failed (w_queue w) ⊆ failed (w_queue w') /\
  (forall x, getRetryCount x (w_queue w) <= getRetryCount x (w_queue w')) /\
  ((queue (w_queue w') = queue (w_queue w) /\
    (id ∈ processed (w_queue w') \/ id ∈ failed (w_queue w')))
   \/
   (queue (w_queue w') = id :: queue (w_queue w) /\
    getRetryCount id (w_queue w') = getRetryCount id (w_queue w) + 1 /\
    getRetryCount id (w_queue w') <= 3)).
Proof.
  cbn zeta.
  destruct (processListing_cases fetch cfg now id w)
    as [[Hp ->] | [(Hp & _ & -> & _) | [(Hp & _ & -> & _) | (Hp & _ & Hq & _)]]].
  - cbn [snd]. split; [done |]. split; [done |]. split; [intros; apply Z.le_refl |].
    left. split; [done |]. left. by apply bool_decide_eq_true in Hp.
  - destruct (requeueWithRetry_effect id 3 (w_queue w))
      as (Hn & Hother & Hproc & Hfail & Htrue & Hfalse & _).
    rewrite Hproc. split; [done |]. split; [done |]. split.
    + intros x. destruct (decide (x = id)) as [-> | Hne];
        [rewrite Hn | rewrite Hother by done]; lia.
    + destruct (requeueWithRetry id 3 (w_queue w)) as [[] q]; cbn [fst snd] in *.
      * right. destruct (Htrue eq_refl) as (? & _ & ?). done.
      * left. destruct (Hfalse eq_refl) as (? & ?). split; [done | by right].
  - unfold markFailed. cbn.
    split; [done |]. split; [set_solver |]. split; [intros; apply Z.le_refl |].
    left. split; [done |]. right. set_solver.
  - destruct Hq as (q & -> & [-> | (p & ->)]); cbn.
    + split; [set_solver |]. split; [done |]. split; [intros; apply Z.le_refl |].
      left. split; [done |]. left. set_solver.
    + split; [set_solver |]. split; [done |]. split; [intros; apply Z.le_refl |].
      left. split; [done |]. left. set_solver.
Qed.

End WorkerLoopFacts.


Lemma laneCost_app l1 l2 st :
  laneCost (l1 ++ l2) st = (laneCost l1 st + laneCost l2 st)%nat.
Proof.
  induction l1 as [| x l1 IH]; [done |]. cbn [app laneCost]. rewrite IH. lia.
Qed.

Lemma laneCost_mono lane st st' :
  (forall x, getRetryCount x st <= getRetryCount x st') ->
  (laneCost lane st' <= laneCost lane st)%nat.
Proof.
  intros Hmono. induction lane as [| x lane IH]; [done |].
  cbn [laneCost]. specialize (Hmono x). unfold retryBudget. lia.
Qed.

Lemma laneCost_bound lane st :
  (forall x, 0 <= getRetryCount x st) ->
  (laneCost lane st <= 4 * length lane)%nat.
Proof.
  intros Hpos. induction lane as [| x lane IH]; [done |].
  cbn [laneCost length]. specialize (Hpos x). unfold retryBudget. lia.
Qed.

Lemma laneCost_frame lane st st' :
  retries st' = retries st -> laneCost lane st' = laneCost lane st.
Proof.
  intros Hr. induction lane as [| x lane IH]; [done |].
  cbn [laneCost]. unfold retryBudget, getRetryCount. by rewrite Hr, IH.
Qed.

Lemma brpop_snoc l x q : brpop l = Some (x, q) -> l = q ++ [x].
Proof.
  unfold brpop. destruct (rev l) as [| y r] eqn:E; [done |].
  intros [= <- <-]. apply (f_equal (@rev string)) in E.
  rewrite rev_involutive in E. by rewrite E.
Qed.

Section WorkerLoopTermination.

Context {StandardProperty : Type}.
Variable transformToStandard : Property -> StandardProperty.
Variable cfgAt : nat -> SinkConfig.
Variable nowAt : nat -> Z.
Variable fetchAt : nat -> string -> Outcome (option Property).

Let loop := RealtorWorker.loop transformToStandard cfgAt nowAt fetchAt.

Lemma worker_with_queue_id (w : Worker (StandardProperty := StandardProperty)) :
  with_queue (w_queue w) w = w.
Proof. by destruct w. Qed.

Lemma worker_loop_empty fuel iteration e
    (w : Worker (StandardProperty := StandardProperty)) :
  queue (w_queue w) = [] ->
  (e < maxEmptyChecks)%nat ->
  (maxEmptyChecks - e <= fuel)%nat ->
  loop fuel iteration e w = Some w.
Proof.
  revert iteration e. induction fuel as [| fuel IH]; intros iteration e Hq He Hfuel.
  - unfold maxEmptyChecks in *. lia.
  - unfold loop. cbn [RealtorWorker.loop]. unfold popListingId.
    rewrite Hq. cbn [brpop rev noId]. rewrite worker_with_queue_id.
    destruct (Nat.leb_spec maxEmptyChecks (S e)) as [Hstop | Hgo]; [done |].
    apply IH; [done | done |]. unfold maxEmptyChecks in *. lia.
Qed.

(** One processed entry costs at least one unit of [laneCost]. *)
Lemma worker_step_cost iteration id q
    (w : Worker (StandardProperty := StandardProperty)) :
  brpop (queue (w_queue w)) = Some (id, q) ->
  let w2 := (processListingWith transformToStandard (fetchAt iteration)
               (cfgAt iteration) (nowAt iteration) id
               (with_queue (set_queue q (w_queue w)) w)).2 in
  (laneCost (queue (w_queue w2)) (w_queue w2)
   < laneCost (queue (w_queue w)) (w_queue w))%nat.
Proof.
  intros Hpop. cbn zeta. apply brpop_snoc in Hpop.
  destruct (processListing_lane transformToStandard (fetchAt iteration)
              (cfgAt iteration) (nowAt iteration) id
              (with_queue (set_queue q (w_queue w)) w))
    as (_ & _ & Hmono & Hlane).
  cbn [w_queue with_queue queue set_queue] in Hmono, Hlane.
  change (getRetryCount id (set_queue q (w_queue w)))
    with (getRetryCount id (w_queue w)) in Hlane.
  match type of Hlane with context [queue ?s = q] => set (st2 := s) in * end.
  assert (forall x, getRetryCount x (w_queue w) <= getRetryCount x st2) as Hmono'
    by (intros x; apply (Hmono x)).
  pose proof (laneCost_mono q (w_queue w) st2 Hmono') as Hq.
  rewrite Hpop, laneCost_app. cbn [laneCost].
  destruct Hlane as [[-> _] | (-> & Hn & Hle)].
  - lia.
  - cbn [laneCost]. unfold retryBudget. rewrite Hn. lia.
Qed.

Lemma worker_loop_terminates fuel :
  forall iteration e (w : Worker (StandardProperty := StandardProperty)),
    (e < maxEmptyChecks)%nat ->
    (laneCost (queue (w_queue w)) (w_queue w) + maxEmptyChecks <= fuel)%nat ->
    is_Some (loop fuel iteration e w).
Proof.
  induction fuel as [| fuel IH]; intros iteration e w He Hfuel.
  - unfold maxEmptyChecks in *. lia.
  - unfold loop. cbn [RealtorWorker.loop]. unfold popListingId.
    destruct (brpop (queue (w_queue w))) as [[x q] |] eqn:E.
    + destruct (noId (Some x)).
      * destruct (Nat.leb_spec maxEmptyChecks (S e)); [done |].
        apply IH; [done |]. cbn [w_queue with_queue queue set_queue].
        apply brpop_snoc in E. rewrite E, laneCost_app in Hfuel.
        cbn [laneCost] in Hfuel.
        rewrite (laneCost_frame q (w_queue w) (set_queue q (w_queue w))) by done.
        lia.
      * apply IH; [unfold maxEmptyChecks; lia |].
        pose proof (worker_step_cost iteration x q w E) as Hcost. cbn zeta in Hcost.
        cbn [default from_option Datatypes.id]. lia.
    + apply brpop_None in E. cbn [noId].
      destruct (Nat.leb_spec maxEmptyChecks (S e)); [done |].
      rewrite worker_with_queue_id. fold loop.
      rewrite worker_loop_empty; [done | done | done |].
      unfold maxEmptyChecks in *. lia.
Qed.

Lemma worker_loop_classifies fuel :
  forall iteration e (w w' : Worker (StandardProperty := StandardProperty)),
    loop fuel iteration e w = Some w' ->
    EmptyString ∉ queue (w_queue w) ->
    queue (w_queue w') = [] /\
    processed (w_queue w) ⊆ processed (w_queue w') /\
    failed (w_queue w) ⊆ failed (w_queue w') /\
    (forall x, x ∈ queue (w_queue w) ->
               x ∈ processed (w_queue w') \/ x ∈ failed (w_queue w')).
Proof.
  induction fuel as [| fuel IH]; intros iteration e w w' Hrun Hne; [done |].
  unfold loop in Hrun. cbn [RealtorWorker.loop] in Hrun. unfold popListingId in Hrun.
  destruct (brpop (queue (w_queue w))) as [[x q] |] eqn:E.
  - pose proof (brpop_snoc _ _ _ E) as Hq.
    assert (x <> EmptyString) as Hx.
    { intros ->. apply Hne. rewrite Hq. apply elem_of_app. right. by left. }
    cbn [noId] in Hrun. rewrite (proj2 (String.eqb_neq x EmptyString) Hx) in Hrun.
    cbn [default from_option Datatypes.id] in Hrun.
    destruct (processListing_lane transformToStandard (fetchAt iteration)
                (cfgAt iteration) (nowAt iteration) x
                (with_queue (set_queue q (w_queue w)) w))
      as (Hp & Hf & _ & Hlane).
    cbn [w_queue with_queue queue set_queue processed failed set_queue] in Hp, Hf, Hlane.
    apply IH in Hrun as (Hempty & Hp' & Hf' & Hcls).
    + split; [done |]. split; [set_solver |]. split; [set_solver |].
      intros y Hy. rewrite Hq in Hy. apply elem_of_app in Hy as [Hy | Hy].
      * apply Hcls. destruct Hlane as [[-> _] | (-> & _)]; [done | by right].
      * apply elem_of_cons in Hy as [-> | Hy]; [| by apply elem_of_nil in Hy].
        destruct Hlane as [[_ [H | H]] | (Hreq & _)].
        -- left. set_solver.
        -- right. set_solver.
        -- apply Hcls. rewrite Hreq. by left.
    + assert (EmptyString ∉ q) as Hnq.
      { intros H. apply Hne. rewrite Hq. apply elem_of_app. by left. }
      destruct Hlane as [[-> _] | (-> & _)]; [done |].
      intros [H | H]%elem_of_cons; [by apply Hx | done].
  - apply brpop_None in E. cbn [noId] in Hrun. rewrite worker_with_queue_id in Hrun.
    destruct (maxEmptyChecks <=? S e)%nat.
    + injection Hrun as <-. rewrite E. split; [done |]. split; [done |].
      split; [done |]. intros x Hx. by apply elem_of_nil in Hx.
    + apply IH in Hrun; [| done]. rewrite E in *.
      destruct Hrun as (? & ? & ? & _). repeat split; try done.
      intros x Hx. by apply elem_of_nil in Hx.
Qed.

End WorkerLoopTermination.

(** X14: the worker's polling loop always ends.  With the main lane written
    by nobody else it stops within ([laneCost] + 10) polls, whatever the
    portal and the sink do, because every failed attempt uses up one of the
    identifier's retries; with retry counters that are not negative that is
    at most 4 polls per lane entry plus 10.  When the lane holds no empty
    identifier, the loop leaves it empty, and every identifier that was on
    it ends in the processed set or in the failed set. *)
Theorem worker_start_drains :
  forall (StandardProperty : Type)
         (transformToStandard : Property -> StandardProperty)
         (cfgAt : nat -> SinkConfig) (nowAt : nat -> Z)
         (fetchAt : nat -> string -> Outcome (option Property))
         (fuel : nat) (w : Worker (StandardProperty := StandardProperty)),
    (laneCost (queue (w_queue w)) (w_queue w) + maxEmptyChecks <= fuel)%nat ->
    is_Some (RealtorWorker.start transformToStandard cfgAt nowAt fetchAt fuel w) /\
    ((forall x, 0 <= getRetryCount x (w_queue w)) ->
     (laneCost (queue (w_queue w)) (w_queue w) <= 4 * length (queue (w_queue w)))%nat) /\
    (EmptyString ∉ queue (w_queue w) ->
     exists w',
       RealtorWorker.start transformToStandard cfgAt nowAt fetchAt fuel w = Some w' /\
       queue (w_queue w') = [] /\
       forall x, x ∈ queue (w_queue w) ->
                 x ∈ processed (w_queue w') \/ x ∈ failed (w_queue w')).
Proof.
  intros T tr cfgAt nowAt fetchAt fuel w Hfuel.
  assert (is_Some (RealtorWorker.start tr cfgAt nowAt fetchAt fuel w)) as Hsome.
  { apply worker_loop_terminates; [unfold maxEmptyChecks; lia | done]. }
  split; [done |]. split; [apply laneCost_bound |].
  intros Hne. destruct Hsome as [w' Hrun]. exists w'. split; [done |].
  destruct (worker_loop_classifies tr cfgAt nowAt fetchAt fuel 0 0 w w' Hrun Hne)
    as (Hq & _ & _ & Hcls).
  done.
Qed.

Lemma worker_start_drains_witness :
  let w : Worker (StandardProperty := unit) :=
    newWorker (pushListingIds 1700000000000 ["A"; "B"] empty_store).2 in
  let portal := fun (k : nat) (id : string) =>
                  if String.eqb id "A" then Threw
                  else Returned (Some sampleListing) in
  (laneCost (queue (w_queue w)) (w_queue w) + maxEmptyChecks <= 18)%nat /\
  (EmptyString ∉ queue (w_queue w)) /\
  exists w',
    RealtorWorker.start (fun _ => tt)
      (fun _ => {| apiKey := false; sinkAccepts := true |})
      (fun _ => 1700000000000) portal 18 w = Some w' /\
    queue (w_queue w') = [] /\
    "A" ∈ failed (w_queue w') /\ "B" ∈ processed (w_queue w').
Proof.
  cbn zeta.
  set (w := newWorker (pushListingIds 1700000000000 ["A"; "B"] empty_store).2
            : Worker (StandardProperty := unit)).
  assert (laneCost (queue (w_queue w)) (w_queue w) + maxEmptyChecks <= 18)%nat
    as Hfuel by (by vm_compute).
  assert (EmptyString ∉ queue (w_queue w)) as Hne.
  { change (queue (w_queue w)) with ["B"; "A"].
    intros H. apply elem_of_cons in H as [H | H]; [discriminate |].
    apply elem_of_cons in H as [H | H]; [discriminate |]. by apply elem_of_nil in H. }
  split; [exact Hfuel |]. split; [exact Hne |].
  destruct (proj2 (proj2 (worker_start_drains unit (fun _ => tt)
              (fun _ => {| apiKey := false; sinkAccepts := true |})
              (fun _ => 1700000000000)
              (fun (k : nat) (id : string) =>
                 if String.eqb id "A" then Threw else Returned (Some sampleListing))
              18 w Hfuel)) Hne) as (w' & Hrun & Hq & Hcls).
  exists w'. split; [exact Hrun |]. split; [exact Hq |].
  vm_compute in Hrun. injection Hrun as <-.
  split; apply (bool_decide_unpack _); by vm_compute.
Defined.

(** X15: bookkeeping of [processListing].  In every outcome the processed
    counter moves together with exactly one of the changed and unchanged
    counters; at most one payload is POSTed and none is ever taken back; the
    call never touches the discovery set, the last-seen times, the missing
    lane or the verified-inactive set.  A false return means that no
    snapshot was written and the processed set and counter are as before;
    nothing was POSTed when the fetch threw or found no listing, and
    otherwise the sink has rejected a changed listing whose payload had
    been POSTed by then. *)
Theorem processListing_bookkeeping :
  forall (StandardProperty : Type)
         (transformToStandard : Property -> StandardProperty)
         (fetch : string -> Outcome (option Property))
         (cfg : SinkConfig) (now : Z) (id : string)
         (w : Worker (StandardProperty := StandardProperty)),
    let r := processListingWith transformToStandard fetch cfg now id w in
    (processedCount r.2 + changedCount w + unchangedCount w
     = processedCount w + changedCount r.2 + unchangedCount r.2)%nat /\
    (exists sent, w_sent r.2 = w_sent w ++ sent /\ (length sent <= 1)%nat) /\
    all_ids (w_queue r.2) = all_ids (w_queue w) /\
    last_seen (w_queue r.2) = last_seen (w_queue w) /\
    missing_queue (w_queue r.2) = missing_queue (w_queue w) /\
    verified_inactive (w_queue r.2) = verified_inactive (w_queue w) /\
    (r.1 = false ->
       snapshots (w_queue r.2) = snapshots (w_queue w) /\
       processed (w_queue r.2) = processed (w_queue w) /\
       processedCount r.2 = processedCount w /\
       (((fetch id = Threw \/ fetch id = Returned None) /\
         w_sent r.2 = w_sent w) \/
        (exists p,
            fetch id = Returned (Some p) /\
            (hasPropertyChanged id p (w_queue w)).1 = true /\
            apiKey cfg = true /\ sinkAccepts cfg = false /\
            let p1 := (hasPropertyChanged id p (w_queue w)).2 in
            w_sent r.2 =
              w_sent w ++ [{| portal_id := id; data := transformToStandard p1;
                              raw_data := p1 |}]))).
Proof.
  intros T tr fetch cfg now id w. cbn zeta.
  destruct (processListing_cases tr fetch cfg now id w)
    as [[Hp ->] | [(Hp & Hr & Hq & Hs & Hpc & Hcc & Huc & _)
                  | [(Hp & Hr & Hq & Hs & Hpc & Hcc & Huc & _ & Hnone)
                    | (Hp & Hr & Hq & Hs & Hpc & Hcu & _)]]].
  - cbn [fst snd]. split; [lia |].
    split; [exists []; split; [by rewrite app_nil_r | cbn; lia] |]. done.
  - destruct (requeueWithRetry_effect id 3 (w_queue w))
      as (_ & _ & Hproc & _ & _ & _ & Ha & Hl & Hm & Hv & Hsn).
    rewrite Hq, Hpc, Hcc, Huc, Ha, Hl, Hm, Hv, Hsn, Hproc.
    split; [lia |]. split.
    { destruct Hs as [[_ ->] | (p & _ & _ & _ & _ & ->)].
      - exists []; split; [by rewrite app_nil_r | cbn; lia].
      - eexists [_]; split; [done | cbn; lia]. }
    do 4 (split; [done |]). intros _. do 3 (split; [done |]).
    destruct Hs as [[Hthrew Hsame] | (p & Hf & Hch & Hkey & Hacc & Hsent)].
    + left. split; [by left | done].
    + right. by exists p.
  - rewrite Hq, Hs, Hpc, Hcc, Huc.
    split; [lia |].
    split; [exists []; split; [by rewrite app_nil_r | cbn; lia] |].
    do 4 (split; [done |]). intros _. do 3 (split; [done |]).
    left. split; [by right | done].
  - rewrite Hr, Hpc. split; [lia |]. split; [done |].
    destruct Hq as (q & -> & [-> | (p & ->)]); done.
Qed.

Lemma processListing_bookkeeping_witness :
  let w : Worker (StandardProperty := Property) := newWorker empty_store in
  let cfg := {| apiKey := true; sinkAccepts := false |} in
  let r := processListingWith (fun p => p) (fun _ => Returned (Some sampleListing))
             cfg 1700000000000 "A" w in
  r.1 = false /\
  snapshots (w_queue r.2) = snapshots (w_queue w) /\
  length (w_sent r.2) = 1%nat.
Proof.
  cbn zeta.
  assert ((processListingWith (fun p => p)
             (fun _ => Returned (Some sampleListing))
             {| apiKey := true; sinkAccepts := false |} 1700000000000 "A"
             (newWorker empty_store)).1 = false) as Hfalse by reflexivity.
  split; [exact Hfalse |].
  destruct (processListing_bookkeeping Property (fun p => p)
              (fun _ => Returned (Some sampleListing))
              {| apiKey := true; sinkAccepts := false |} 1700000000000 "A"
              (newWorker empty_store))
    as (_ & _ & _ & _ & _ & _ & Hf).
  destruct (Hf Hfalse) as (Hsn & _ & _ & Hsent).
  split; [exact Hsn |].
  destruct Hsent as [[[Hx | Hx] _] | (p & _ & _ & _ & _ & ->)];
    [discriminate Hx | discriminate Hx | reflexivity].
Defined.

(** X16: failures of [processListing].  When the fetch throws, or the sink
    rejects a changed listing, the retry counter of the identifier goes up
    by one; up to a count of 3 the identifier goes back on the main lane and
    the failed counter stays, beyond that it enters the failed set with the
    message for 3 retries, the lane stays and the failed counter goes up.
    When the fetch returns no listing, the identifier enters the failed set
    at once with the message "Not found": no retry, no requeue, and the
    worker's failed counter is not increased. *)
Theorem processListing_failures :
  forall (StandardProperty : Type)
         (transformToStandard : Property -> StandardProperty)
         (fetch : string -> Outcome (option Property))
         (cfg : SinkConfig) (now : Z) (id : string)
         (w : Worker (StandardProperty := StandardProperty)),
    isProcessed id (w_queue w) = false ->
    let r := processListingWith transformToStandard fetch cfg now id w in
    ((fetch id = Threw \/
      exists p, fetch id = Returned (Some p) /\
                (hasPropertyChanged id p (w_queue w)).1 = true /\
                apiKey cfg = true /\ sinkAccepts cfg = false) ->
     r.1 = false /\
     getRetryCount id (w_queue r.2) = getRetryCount id (w_queue w) + 1 /\
     (getRetryCount id (w_queue w) + 1 <= 3 ->
        queue (w_queue r.2) = id :: queue (w_queue w) /\
        failed (w_queue r.2) = failed (w_queue w) /\
        failedCount r.2 = failedCount w) /\
     (3 < getRetryCount id (w_queue w) + 1 ->
        queue (w_queue r.2) = queue (w_queue w) /\
        id ∈ failed (w_queue r.2) /\
        failed_errors (w_queue r.2) !! id = Some "Max retries (3) exceeded" /\
        failedCount r.2 = S (failedCount w))) /\
    (fetch id = Returned None ->
     r.1 = false /\
     id ∈ failed (w_queue r.2) /\
     failed_errors (w_queue r.2) !! id = Some "Not found" /\
     queue (w_queue r.2) = queue (w_queue w) /\
     retries (w_queue r.2) = retries (w_queue w) /\
     failedCount r.2 = failedCount w).
Proof.
  intros T tr fetch cfg now id w Hnp. cbn zeta.
  assert (forall w0 : Worker (StandardProperty := T),
            w_queue w0 = w_queue w -> failedCount w0 = failedCount w ->
            let r := processListingCatch id w0 in
            r.1 = false /\
            getRetryCount id (w_queue r.2) = getRetryCount id (w_queue w) + 1 /\
            (getRetryCount id (w_queue w) + 1 <= 3 ->
               queue (w_queue r.2) = id :: queue (w_queue w) /\
               failed (w_queue r.2) = failed (w_queue w) /\
               failedCount r.2 = failedCount w) /\
            (3 < getRetryCount id (w_queue w) + 1 ->
               queue (w_queue r.2) = queue (w_queue w) /\
               id ∈ failed (w_queue r.2) /\
               failed_errors (w_queue r.2) !! id = Some "Max retries (3) exceeded" /\
               failedCount r.2 = S (failedCount w))) as Hcatch.
  { intros w0 Hq Hf. cbn zeta.
    destruct (processListingCatch_effect id w0) as (Hr & Hq' & _ & _ & _ & _ & Hfc).
    rewrite Hq in Hq', Hfc. rewrite Hr, Hq', Hfc, Hf.
    destruct (requeueWithRetry_step id 3 (w_queue w)) as (Hn & Hok & Hko).
    split; [done |]. split; [done |]. split.
    - intros Hle. destruct (Hok Hle) as (-> & ? & ? & _). done.
    - intros Hgt. destruct (Hko Hgt) as (-> & ? & ? & Hmsg). done. }
  unfold processListingWith. rewrite Hnp. split.
  - intros [-> | (p & -> & Hch & Hkey & Hrej)]; [by apply Hcatch |].
    cbn [w_queue]. destruct (hasPropertyChanged id p (w_queue w)) as [b p1].
    cbn [fst] in Hch. subst b. cbn [negb]. unfold sendToCoreService.
    rewrite Hkey, Hrej. cbn [negb]. by apply Hcatch.
  - intros ->. cbn [fst snd w_queue with_queue failedCount].
    unfold markFailed.
    cbn [String.eqb Ascii.eqb Bool.eqb failed failed_errors queue retries
         set_failed set_failed_errors].
    rewrite lookup_insert_eq. split; [done |].
    split; [by apply elem_of_union_l, elem_of_singleton_2 |]. done.
Qed.

Lemma processListing_failures_witness :
  let w : Worker (StandardProperty := unit) :=
    newWorker (requeueTimes 3 "A" 3 empty_store).2 in
  let r := processListingWith (fun _ => tt) (fun _ => Threw)
             {| apiKey := true; sinkAccepts := true |} 1700000000000 "A" w in
  isProcessed "A" (w_queue w) = false /\
  3 < getRetryCount "A" (w_queue w) + 1 /\
  r.1 = false /\ "A" ∈ failed (w_queue r.2) /\ failedCount r.2 = 1%nat.
Proof.
  cbn zeta. split; [reflexivity |]. split; [reflexivity |].
  destruct (proj1 (processListing_failures unit (fun _ => tt) (fun _ => Threw)
              {| apiKey := true; sinkAccepts := true |} 1700000000000 "A"
              (newWorker (requeueTimes 3 "A" 3 empty_store).2) eq_refl)
              (or_introl eq_refl)) as (H1 & _ & _ & Hko).
  destruct (Hko ltac:(reflexivity)) as (_ & H2 & _ & H3).
  split; [exact H1 |]. split; [exact H2 | exact H3].
Defined.
